(** * The prediction request pipeline of [src/index.ts]

    A shallow embedding of the [POST /predict] handler: the lazily filled
    module-level model slot, the image-to-tensor preprocessing, the
    inference call, the score-to-label rule, the Firestore write and the
    tensor clean-up.

    - JavaScript numbers are IEEE binary64 values, taken from the
      Standard Library's executable specification [spec_float]
      (precision 53, [emax] 1024).
    - Tensor elements are exact rationals: the float32 rounding inside the
      TensorFlow kernels is idealised away, the shapes and the
      interpolation scheme are kept.
    - The handler is an [async] function.  It is cut at its [await]s into
      atomic segments; one segment runs to completion, as JavaScript
      does, and a scheduler interleaves the segments of several requests
      over the shared process state. *)

From Stdlib Require Import ZArith QArith Qround Qabs Lia Lqa SpecFloat.
From stdpp Require Import gmap strings list pretty.

Local Open Scope Z_scope.

(** ** JavaScript numbers and the two conversions the handler uses *)

Module JS.

Definition prec : Z := 53.
Definition emax : Z := 1024.

Definition number := spec_float.

(** [a * b], [a / b], [a > b] and [a <= b] on Numbers. *)
Definition mul (a b : number) : number := SFmul prec emax a b.
Definition div (a b : number) : number := SFdiv prec emax a b.
Definition gt (a b : number) : bool := SFltb b a.
Definition le (a b : number) : bool := SFleb a b.

(** The Number nearest to [m * 2^e]. *)
Definition of_dyadic (m e : Z) : number := binary_normalize prec emax m e false.

Definition num_0 : number := S754_zero false.
Definition num_1 : number := Eval vm_compute in of_dyadic 1 0.
Definition num_50 : number := Eval vm_compute in of_dyadic 50 0.
Definition num_100 : number := Eval vm_compute in of_dyadic 100 0.

(** The exact rational a finite Number stands for (0 for the others). *)
Definition to_Q (x : number) : Q :=
  match x with
  | S754_finite s m e =>
      let z := if s then Zneg m else Zpos m in
      match e with
      | Z0 => z # 1
      | Zpos p => (z * 2 ^ Zpos p) # 1
      | Zneg p => z # (2 ^ p)
      end
  | _ => 0%Q
  end.

Definition is_finite (x : number) : bool :=
  match x with
  | S754_finite _ _ _ | S754_zero _ => true
  | _ => false
  end.

(** The text [Number.prototype.toFixed] returns, by its grammar rather
    than by its characters:
    - ["NaN"];
    - ["Infinity"] and ["-Infinity"];
    - for [10^21 <= |x|], the text of [Number::toString], which
      denotes [x] itself;
    - otherwise a sign and the decimal digits of an integer [n] with
      the point [f] digits from the right: [TxtDecimal s n f] reads
      [n / 10^f]. *)
Inductive text :=
| TxtNaN
| TxtInfinity (neg : bool)
| TxtNumber (neg : bool) (m : positive) (e : Z)
| TxtDecimal (neg : bool) (n : Z) (f : Z).

(** [k <= m * 2^e], decided on integers. *)
Definition dyadic_geb (m : positive) (e : Z) (k : Z) : bool :=
  match e with
  | Z0 => k <=? Zpos m
  | Zpos p => k <=? Zpos m * 2 ^ Zpos p
  | Zneg p => k * 2 ^ Zpos p <=? Zpos m
  end.

(** ECMAScript, Number.prototype.toFixed step 10.a: "let n be an
    integer for which n / 10^f - x is as close to zero as possible; if
    there are two such n, pick the larger n", for [x = m * 2^e]. *)
Definition nearest_scaled (f : Z) (m : positive) (e : Z) : Z :=
  match e with
  | Z0 => Zpos m * 10 ^ f
  | Zpos p => Zpos m * 2 ^ Zpos p * 10 ^ f
  | Zneg p => (2 * (Zpos m * 10 ^ f) + 2 ^ Zpos p) / 2 ^ (Zpos p + 1)
  end.

(** [x.toFixed(f)] for [0 <= f <= 100].  A negative zero is not
    [< 0], so it prints without a sign. *)
Definition toFixed (x : number) (f : Z) : text :=
  match x with
  | S754_nan => TxtNaN
  | S754_infinity s => TxtInfinity s
  | S754_zero _ => TxtDecimal false 0 f
  | S754_finite s m e =>
      if dyadic_geb m e (10 ^ 21) then TxtNumber s m e
      else TxtDecimal s (nearest_scaled f m e) f
  end.

(** [parseFloat] on such a text: the Number nearest to the decimal it
    reads, which for [n / 10^f] is the correctly rounded quotient of
    the two integers. *)
Definition parseFloat (t : text) : number :=
  match t with
  | TxtNaN => S754_nan
  | TxtInfinity s => S754_infinity s
  | TxtNumber s m e => S754_finite s m e
  | TxtDecimal s n f =>
      match n with
      | Zpos p => div (S754_finite s p 0) (S754_finite false (Z.to_pos (10 ^ f)) 0)
      | _ => S754_zero s
      end
  end.

(** The characters of a decimal text, for the cases the handler meets
    in practice. *)
Definition pad_left (k : nat) (s : string) : string :=
  String.concat EmptyString (replicate (k - String.length s) "0"%string) +:+ s.

Definition render (t : text) : option string :=
  match t with
  | TxtNaN => Some "NaN"%string
  | TxtInfinity s => Some ((if s then "-" else EmptyString) +:+ "Infinity")%string
  | TxtNumber _ _ _ => None
  | TxtDecimal s n f =>
      let sign := (if s then "-" else EmptyString)%string in
      let whole := pretty (Z.to_N (n / 10 ^ f)) in
      if f =? 0 then Some (sign +:+ whole)
      else Some (sign +:+ whole +:+ "." +:+
                 pad_left (Z.to_nat f) (pretty (Z.to_N (n mod 10 ^ f))))
  end.

End JS.

(** ** Tensors and the TensorFlow operations of the preprocessing step *)

Module Tf.

(** A dense tensor: its shape and its elements in row-major order. *)
Record tensor := Tensor { shape : list nat; values : list Q }.

Definition numel (sh : list nat) : nat := foldr Nat.mul 1%nat sh.

(** Linear interpolation, as the kernel writes it: [a + (b - a) * t]. *)
Definition lerp (a b t : Q) : Q := (a + (b - a) * t)%Q.

(** The source coordinate of output index [i] along one axis:
    [i * (old / new)], with neither corner alignment nor half-pixel
    centres (the defaults of [tf.image.resizeBilinear]).  Returns the
    lower index, the upper index and the fractional weight. *)
Definition source_coord (old new i : nat) : nat * nat * Q :=
  let frac := (inject_Z (Z.of_nat i) * (Z.of_nat old # Pos.of_nat new))%Q in
  let lo := Z.max 0 (Qfloor frac) in
  let hi := Z.min (Z.of_nat old - 1) (Qceiling frac) in
  (Z.to_nat lo, Z.to_nat hi, (frac - inject_Z lo)%Q).

(** Element [(b, y, x, ch)] of a [_ x h x w x c] batch of images. *)
Definition pixel (h w c : nat) (d : list Q) (b y x ch : nat) : Q :=
  nth ((((b * h + y) * w + x) * c + ch)%nat) d 0%Q.

Definition resize_pixel (h w c newH newW : nat) (d : list Q) (b y x ch : nat) : Q :=
  let '(y0, y1, fy) := source_coord h newH y in
  let '(x0, x1, fx) := source_coord w newW x in
  let top := lerp (pixel h w c d b y0 x0 ch) (pixel h w c d b y0 x1 ch) fx in
  let bottom := lerp (pixel h w c d b y1 x0 ch) (pixel h w c d b y1 x1 ch) fx in
  lerp top bottom fy.

Definition resize_values (n h w c newH newW : nat) (d : list Q) : list Q :=
  flat_map (fun b =>
    flat_map (fun y =>
      flat_map (fun x =>
        List.map (fun ch => resize_pixel h w c newH newW d b y x ch) (seq 0 c))
        (seq 0 newW))
      (seq 0 newH))
    (seq 0 n).

(** [tf.image.resizeBilinear(images, [newH, newW])]: a rank-3 image or
    a rank-4 batch; any other rank is rejected with an exception
    ([None]). *)
Definition resizeBilinear (images : tensor) (newH newW : nat) : option tensor :=
  match shape images with
  | [h; w; c] =>
      Some (Tensor [newH; newW; c] (resize_values 1 h w c newH newW (values images)))
  | [n; h; w; c] =>
      Some (Tensor [n; newH; newW; c] (resize_values n h w c newH newW (values images)))
  | _ => None
  end.

(** [t.div(k)] for a scalar [k], and [t.expandDims(0)]. *)
Definition div (t : tensor) (k : Q) : tensor :=
  Tensor (shape t) (List.map (fun v => (v / k)%Q) (values t)).

Definition expandDims0 (t : tensor) : tensor :=
  Tensor (1%nat :: shape t) (values t).

(** What [tf.node.decodeImage] may return for a well-formed file: a
    rank-3 [height x width x channels] tensor of bytes, whose element
    count matches its shape.  The handler passes the buffer alone, so
    the channel count is the file's own (1 for grayscale, 3 for RGB, 4
    for RGBA). *)
Definition byte_valued (q : Q) : Prop := (0 <= q)%Q /\ (q <= 255)%Q.

Definition decoded_image (t : tensor) (h w c : nat) : Prop :=
  shape t = [h; w; c] /\
  length (values t) = numel [h; w; c] /\
  Forall byte_valued (values t).

Definition unit_valued (q : Q) : Prop := (0 <= q)%Q /\ (q <= 1)%Q.

End Tf.

(** ** The process state, the collaborators and the handler's effects *)

(** The outcome of a call that may throw, or of an awaited promise. *)
Inductive reply (A : Type) : Type :=
| Resolved (a : A)
| Rejected.
Arguments Resolved {A} a.
Arguments Rejected {A}.

(** A loaded [tf.GraphModel]: the identity of the object, and what
    [predict] answers on an input tensor (the data of the output tensor,
    as [dataSync] reads it, or an exception). *)
Record GraphModel := {
  model_ref : nat;
  predict : Tf.tensor -> reply (list JS.number)
}.

(** The document written to the [predictions] collection. *)
Record PredictionRecord := {
  id : string;
  result : string;
  suggestion : string;
  createdAt : string
}.

Inductive body :=
| Fail (message : string)
| Success (message : string) (data : PredictionRecord).

Record response := { status : nat; json : body }.

(** Calls that leave the handler, in the order they are made. *)
Inductive event :=
| CallExists                      (* modelFile.exists()            line 41 *)
| CallLoadGraphModel              (* tf.loadGraphModel(modelPath)  line 48 *)
| CallDecodeImage                 (* tf.node.decodeImage           line 74 *)
| CallResizeBilinear              (* tf.image.resizeBilinear       line 75 *)
| CallDiv                         (* resizedImage.div(255.0)       line 76 *)
| CallExpandDims                  (* .expandDims(0)                line 76 *)
| CallPredict (model : nat)       (* cancerModel.predict           line 79 *)
| CallDataSync                    (* prediction.dataSync()         line 82 *)
| CallUuid                        (* uuidv4()                      line 90 *)
| CallDate                        (* new Date().toISOString()      line 91 *)
| CallSet (doc : string)          (* predictionsCollection.doc(id).set(..)  line 94 *)
| CallDispose (t : nat)           (* lines 102-105 *)
| ConsoleError (what : string).   (* lines 50 and 118 *)

(** The state of the Node process that requests share: the module-level
    [cancerModel] variable, the Firestore collection, and the tensors
    that the handler's own TensorFlow calls have registered with the
    engine and not disposed of (the weights of a loaded model are not
    counted). *)
Record process := Process {
  cancerModel : option GraphModel;
  predictionsCollection : gmap string PredictionRecord;
  live_tensors : gset nat;
  next_tensor : nat;
  next_model : nat;
  trace : list (nat * event)
}.

Definition fresh_process : process :=
  Process None ∅ ∅ 0%nat 0%nat [].

(** What the world outside answers to one request's calls. *)
Record outside := {
  storage_exists : reply bool;
  tf_loadGraphModel : reply (Tf.tensor -> reply (list JS.number));
  tf_decodeImage : list Byte.byte -> reply Tf.tensor;
  uuidv4 : string;
  date_toISOString : string;
  firestore_set : reply unit
}.

(** Computations of the handler: they update the process state and
    either return a value or throw. *)
Definition exec (A : Type) : Type := process -> process * option A.

#[global] Instance exec_ret : MRet exec := fun A a w => (w, Some a).
#[global] Instance exec_bind : MBind exec := fun A B f m w =>
  match m w with
  | (w', Some a) => f a w'
  | (w', None) => (w', None)
  end.

Definition throw {A} : exec A := fun w => (w, None).

Definition of_reply {A} (r : reply A) : exec A :=
  match r with
  | Resolved a => mret a
  | Rejected => throw
  end.

Definition of_option {A} (r : option A) : exec A :=
  match r with
  | Some a => mret a
  | None => throw
  end.

Definition emit (rid : nat) (e : event) : exec unit := fun w =>
  (Process (cancerModel w) (predictionsCollection w) (live_tensors w)
           (next_tensor w) (next_model w) (trace w ++ [(rid, e)]), Some tt).

Definition read_cancerModel : exec (option GraphModel) := fun w => (w, Some (cancerModel w)).

Definition assign_cancerModel (m : GraphModel) : exec unit := fun w =>
  (Process (Some m) (predictionsCollection w) (live_tensors w)
           (next_tensor w) (next_model w) (trace w), Some tt).

(** A new model object: its identity is fresh. *)
Definition new_model (f : Tf.tensor -> reply (list JS.number)) : exec GraphModel := fun w =>
  (Process (cancerModel w) (predictionsCollection w) (live_tensors w)
           (next_tensor w) (S (next_model w)) (trace w),
   Some {| model_ref := next_model w; predict := f |}).

(** Every TensorFlow operation that returns a tensor registers a new one. *)
Definition new_tensor : exec nat := fun w =>
  (Process (cancerModel w) (predictionsCollection w)
           ({[ next_tensor w ]} ∪ live_tensors w)
           (S (next_tensor w)) (next_model w) (trace w),
   Some (next_tensor w)).

Definition dispose (rid t : nat) : exec unit := fun w =>
  (Process (cancerModel w) (predictionsCollection w)
           (live_tensors w ∖ {[ t ]})
           (next_tensor w) (next_model w) (trace w ++ [(rid, CallDispose t)]), Some tt).

Definition store (r : PredictionRecord) : exec unit := fun w =>
  (Process (cancerModel w) (<[ id r := r ]> (predictionsCollection w)) (live_tensors w)
           (next_tensor w) (next_model w) (trace w), Some tt).

(** ** The handler of [POST /predict] *)

(** Lines 82-88: the score and its reading. *)
Definition first_scalar (output : list JS.number) : JS.number :=
  match output with
  | x :: _ => x
  | [] => S754_nan   (* [undefined * 100] *)
  end.

Definition predictionValue_of (output : list JS.number) : JS.text :=
  JS.toFixed (JS.mul (first_scalar output) JS.num_100) 2.

Definition score_of (output : list JS.number) : JS.number :=
  JS.parseFloat (predictionValue_of output).

Definition result_of (score : JS.number) : string :=
  if JS.gt score JS.num_50 then "Cancer" else "Non-cancer".

Definition suggestion_of (result : string) : string :=
  if String.eqb result "Cancer"
  then "Segera periksa ke dokter!"
  else "Penyakit kanker tidak terdeteksi.".

Definition interpret (score : JS.number) : string * string :=
  (result_of score, suggestion_of (result_of score)).

(** Lines 74-76, on the decoded tensor. *)
Definition prepare (image : Tf.tensor) : option Tf.tensor :=
  resized ← Tf.resizeBilinear image 224 224;
  Some (Tf.expandDims0 (Tf.div resized 255)).

Definition no_image : response :=
  {| status := 400; json := Fail "No image uploaded" |}.
Definition prediction_error : response :=
  {| status := 400; json := Fail "Terjadi kesalahan dalam melakukan prediksi" |}.
Definition predicted (doc : PredictionRecord) : response :=
  {| status := 200; json := Success "Model is predicted successfully" doc |}.

(** Where a handler is suspended, with the locals it still needs. *)
Inductive pc :=
| Start
| AwaitExists                                    (* line 41, inside loadModel *)
| AwaitLoadGraphModel                            (* line 48, inside loadModel *)
| AwaitPredict (tfImage resizedImage normalizedImage prediction : nat)
               (output : list JS.number)         (* line 79 *)
| AwaitSet (tfImage resizedImage normalizedImage prediction : nat)
           (doc : PredictionRecord)              (* line 94 *)
| Done (res : response).

Section Handler.

Variable rid : nat.
Variable file : option (list Byte.byte).
Variable o : outside.

(** Lines 49-52: [loadModel] logs what it catches and throws it again. *)
Definition loadModel_catch {A} (c : exec A) : exec A := fun w =>
  match c w with
  | (w', None) => (fst (emit rid (ConsoleError "Error loading model:") w'), None)
  | r => r
  end.

(** Lines 39-41, up to the first [await]. *)
Definition loadModel_begin : exec pc :=
  loadModel_catch (emit rid CallExists;; mret AwaitExists).

(** Lines 41-48, up to the second [await]. *)
Definition loadModel_exists : exec pc :=
  loadModel_catch (
    exists_ ← of_reply (storage_exists o);
    if negb exists_ then throw
    else emit rid CallLoadGraphModel;; mret AwaitLoadGraphModel).

(** Line 48, after the [await]. *)
Definition loadModel_loaded : exec GraphModel :=
  loadModel_catch (f ← of_reply (tf_loadGraphModel o); new_model f).

(** Lines 72-81. *)
Definition preprocess_and_predict : exec pc :=
  imageBuffer ← of_option file;
  emit rid CallDecodeImage;;
  image ← of_reply (tf_decodeImage o imageBuffer);
  tfImage ← new_tensor;
  emit rid CallResizeBilinear;;
  resized ← of_option (Tf.resizeBilinear image 224 224);
  resizedImage ← new_tensor;
  emit rid CallDiv;;
  _ ← new_tensor;
  emit rid CallExpandDims;;
  normalizedImage ← new_tensor;
  model ← read_cancerModel;
  m ← of_option model;
  emit rid (CallPredict (model_ref m));;
  output ← of_reply (predict m (Tf.expandDims0 (Tf.div resized 255)));
  prediction ← new_tensor;
  mret (AwaitPredict tfImage resizedImage normalizedImage prediction output).

(** Lines 82-99, up to the [await] of the write. *)
Definition interpret_and_save
    (tfImage resizedImage normalizedImage prediction : nat)
    (output : list JS.number) : exec pc :=
  emit rid CallDataSync;;
  let result := result_of (score_of output) in
  let suggestion := suggestion_of result in
  emit rid CallUuid;;
  let responseId := uuidv4 o in
  emit rid CallDate;;
  let createdAt := date_toISOString o in
  emit rid (CallSet responseId);;
  mret (AwaitSet tfImage resizedImage normalizedImage prediction
          {| id := responseId; result := result;
             suggestion := suggestion; createdAt := createdAt |}).

(** Lines 94-116, after the [await] of the write. *)
Definition cleanup_and_respond
    (tfImage resizedImage normalizedImage prediction : nat)
    (doc : PredictionRecord) : exec pc :=
  of_reply (firestore_set o);;
  store doc;;
  dispose rid tfImage;;
  dispose rid resizedImage;;
  dispose rid normalizedImage;;
  dispose rid prediction;;
  mret (Done (predicted doc)).

(** The code between two suspension points. *)
Definition segment (at_ : pc) : exec pc :=
  match at_ with
  | Start =>
      match file with
      | None => mret (Done no_image)
      | Some _ =>
          model ← read_cancerModel;
          match model with
          | None => loadModel_begin
          | Some _ => preprocess_and_predict
          end
      end
  | AwaitExists => loadModel_exists
  | AwaitLoadGraphModel =>
      m ← loadModel_loaded;
      assign_cancerModel m;;
      preprocess_and_predict
  | AwaitPredict tfImage resizedImage normalizedImage prediction output =>
      interpret_and_save tfImage resizedImage normalizedImage prediction output
  | AwaitSet tfImage resizedImage normalizedImage prediction doc =>
      cleanup_and_respond tfImage resizedImage normalizedImage prediction doc
  | Done res => mret (Done res)
  end.

(** Lines 117-123: whatever is thrown ends the request with a 400. *)
Definition resume (at_ : pc) (w : process) : process * pc :=
  match segment at_ w with
  | (w', Some k) => (w', k)
  | (w', None) =>
      (fst (emit rid (ConsoleError "Prediction error:") w'), Done prediction_error)
  end.

(** One request served with nothing else running: its segments one
    after the other.  There are at most five. *)
Fixpoint run (fuel : nat) (at_ : pc) (w : process) : process * pc :=
  match fuel with
  | O => (w, at_)
  | S fuel' => let '(w', k) := resume at_ w in run fuel' k w'
  end.

Definition handle (w : process) : process * pc := run 5 Start w.

End Handler.

(** ** Several requests in flight *)

Record task := Task {
  task_file : option (list Byte.byte);
  task_outside : outside;
  task_at : pc
}.

Definition system : Type := process * list task.

(** The scheduler resumes request [i]: its next segment runs to its end. *)
Definition schedule_step (s : system) (i : nat) : system :=
  match s.2 !! i with
  | Some t =>
      let '(w', k) := resume i (task_file t) (task_outside t) (task_at t) s.1 in
      (w', <[ i := Task (task_file t) (task_outside t) k ]> s.2)
  | None => s
  end.

Definition run_schedule (sched : list nat) (s : system) : system :=
  foldl schedule_step s sched.

(** A handler is inside [loadModel] while it waits at line 41 or 48. *)
Definition loading (t : task) : bool :=
  match task_at t with
  | AwaitExists | AwaitLoadGraphModel => true
  | _ => false
  end.

Definition loads_in_flight (s : system) : nat :=
  length (filter (fun t => loading t = true) s.2).

(** The model objects a request handed to [predict]. *)
Definition observed_models (rid : nat) (w : process) : list nat :=
  omap (fun e => match e with
                 | (r, CallPredict m) => if decide (r = rid) then Some m else None
                 | _ => None
                 end) (trace w).

(** The requests of a burst, none of them started yet. *)
Definition spawn (reqs : list (option (list Byte.byte) * outside)) : list task :=
  List.map (fun r => Task r.1 r.2 Start) reqs.

(** What the [await] of line 48 hands back to request [i] when it is
    resumed there: the model object of a load that has completed. *)
Definition load_completed (i : nat) (t : task) (w : process) : option GraphModel :=
  match task_at t with
  | AwaitLoadGraphModel => (loadModel_loaded i (task_outside t) w).2
  | _ => None
  end.

(** The model objects that completed loads have returned along a
    schedule, in the order of their return. *)
Fixpoint returned_models (sched : list nat) (s : system) : list GraphModel :=
  match sched with
  | [] => []
  | i :: rest =>
      match s.2 !! i with
      | Some t => option_list (load_completed i t s.1)
      | None => []
      end ++ returned_models rest (schedule_step s i)
  end.

(** A fully loaded model object: one that a completed
    [tf.loadGraphModel] returned in the course of the schedule. *)
Definition loaded_model (sched : list nat) (s : system) (m : GraphModel) : Prop :=
  m ∈ returned_models sched s.

(** A [predict] on one of the model objects of [loaded]. *)
Definition predicts_loaded (loaded : list GraphModel) (e : nat * event) : Prop :=
  forall r, e.2 = CallPredict r -> exists m, m ∈ loaded /\ model_ref m = r.

(** The slot and every [predict] so far hold model objects of [loaded]
    only. *)
Definition models_loaded (loaded : list GraphModel) (w : process) : Prop :=
  (forall m, cancerModel w = Some m -> m ∈ loaded) /\
  Forall (predicts_loaded loaded) (trace w).

Definition is_load (e : nat * event) : bool :=
  match e.2 with
  | CallLoadGraphModel => true
  | _ => false
  end.

(** A request that has not called [tf.loadGraphModel] yet. *)
Definition before_load (k : pc) : bool :=
  match k with
  | Start | AwaitExists => true
  | _ => false
  end.

(** A guarded slot, as the specification words it: at most one load in
    flight, and one model object for all callers. *)
Definition single_flight : Prop :=
  forall reqs sched,
    let s := run_schedule sched (fresh_process, spawn reqs) in
    (loads_in_flight s <= 1)%nat /\
    forall i j mi mj,
      mi ∈ observed_models i s.1 -> mj ∈ observed_models j s.1 -> mi = mj.

(** The same requests, each waiting at line 41. *)
Definition awaiting (reqs : list (option (list Byte.byte) * outside)) : list task :=
  List.map (fun r => Task r.1 r.2 AwaitExists) reqs.

Definition has_file (r : option (list Byte.byte) * outside) : Prop := is_Some r.1.

(** ** Fixtures: a one-pixel white RGB image, an RGBA pixel, and stub
    collaborators *)

Definition white_pixel : Tf.tensor := Tf.Tensor [1; 1; 3]%nat [255; 255; 255]%Q.
Definition rgba_pixel : Tf.tensor := Tf.Tensor [1; 1; 4]%nat [255; 255; 255; 255]%Q.

(** The float32 nearest to 0.8 and to 0.3, as [dataSync] hands them over. *)
Definition f32_0_8 : JS.number := Eval vm_compute in JS.of_dyadic 13421773 (-24).
Definition f32_0_3 : JS.number := Eval vm_compute in JS.of_dyadic 10066330 (-25).
Definition num_1_5 : JS.number := Eval vm_compute in JS.of_dyadic 3 (-1).

Definition constant_model (x : JS.number) : Tf.tensor -> reply (list JS.number) :=
  fun _ => Resolved [x].

(** A model that accepts only [1 x 224 x 224 x 3] inputs. *)
Definition rgb_model (x : JS.number) : Tf.tensor -> reply (list JS.number) :=
  fun t => if decide (Tf.shape t = [1; 224; 224; 3]%nat) then Resolved [x] else Rejected.

Definition stub (image : reply Tf.tensor)
    (model : reply (Tf.tensor -> reply (list JS.number)))
    (write : reply unit) : outside :=
  {| storage_exists := Resolved true;
     tf_loadGraphModel := model;
     tf_decodeImage := fun _ => image;
     uuidv4 := "3f2c";
     date_toISOString := "2024-01-01T00:00:00.000Z";
     firestore_set := write |}.

Definition absent_artifact : outside :=
  {| storage_exists := Resolved false;
     tf_loadGraphModel := Rejected;
     tf_decodeImage := fun _ => Resolved white_pixel;
     uuidv4 := "3f2c";
     date_toISOString := "2024-01-01T00:00:00.000Z";
     firestore_set := Resolved tt |}.

(** Two requests that arrive together. *)
Definition two_requests : system :=
  (fresh_process,
   spawn [ (Some [], stub (Resolved white_pixel) (Resolved (constant_model f32_0_8)) (Resolved tt));
           (Some [], stub (Resolved white_pixel) (Resolved (constant_model f32_0_3)) (Resolved tt)) ]).

Definition record_of (label advice : string) : PredictionRecord :=
  {| id := "3f2c"; result := label; suggestion := advice;
     createdAt := "2024-01-01T00:00:00.000Z" |}.

(** ** Reading the trace of outgoing calls *)

(** Events of a trace: every [b] comes after an event that satisfies [P]. *)
Definition only_after {A} (P : A -> Prop) (b : A) (evs : list A) : Prop :=
  forall pre post, evs = pre ++ b :: post -> Exists P pre.

Definition is_set (e : nat * event) : bool :=
  match e.2 with
  | CallSet _ => true
  | _ => false
  end.

Definition is_predict (e : nat * event) : bool :=
  match e.2 with
  | CallPredict _ => true
  | _ => false
  end.

Definition writes_attempted (evs : list (nat * event)) : nat :=
  length (filter (fun e => is_set e = true) evs).

(** ** The upload filter and the global error handler (lines 24-34 and
    148-164) *)

(** What travels through [next(err)]: an error of multer's own, with its
    code, or any other [Error], with its message. *)
Inductive js_error :=
| MulterError (code : string)
| PlainError (message : string).

(** The callback of [fileFilter]: [cb(null, true)] or [cb(err)]. *)
Inductive verdict :=
| Accept
| Refuse (err : js_error).

(** Lines 27-33. *)
Definition fileFilter (mimetype : string) : verdict :=
  if String.prefix "image/" mimetype then Accept
  else Refuse (PlainError "Invalid file type. Only images are allowed.").

(** An error middleware either answers or hands the error on. *)
Inductive handled :=
| Respond (res : response)
| Next (err : js_error).

Definition payload_too_large : response :=
  {| status := 413;
     json := Fail "Payload content length greater than maximum allowed: 1000000" |}.

(** Lines 149-164. *)
Definition errorHandler (err : js_error) : handled :=
  match err with
  | MulterError _ => Respond payload_too_large
  | _ => Next err
  end.

(** ** The history endpoint (lines 126-146) *)

Record history_entry := { entry_id : string; entry_history : PredictionRecord }.

Inductive history_body :=
| HistoriesFail (message : string)
| HistoriesSuccess (data : list history_entry).

Record history_response := { history_status : nat; history_json : history_body }.

(** [snapshot.docs.map(...)], on the documents of the collection.  The
    order in which Firestore lists them is not modelled: the documents
    come in the order [map_to_list] gives. *)
Definition history_entries (docs : gmap string PredictionRecord) : list history_entry :=
  (fun kd => {| entry_id := kd.1; entry_history := kd.2 |}) <$> map_to_list docs.

(** The handler of [GET /predict/histories], after its one [await]:
    [get] is whether [predictionsCollection.get()] resolved. *)
Definition histories (rid : nat) (get : reply unit) (w : process)
    : process * history_response :=
  match get with
  | Resolved _ =>
      (w, {| history_status := 200;
             history_json := HistoriesSuccess (history_entries (predictionsCollection w)) |})
  | Rejected =>
      ((emit rid (ConsoleError "Fetching histories error:") w).1,
       {| history_status := 500;
          history_json := HistoriesFail "Error fetching prediction histories" |})
  end.

(** ** Invariants of the process state *)

(** Every document is stored under its own [id] field. *)
Definition keyed_by_id (docs : gmap string PredictionRecord) : Prop :=
  forall k d, docs !! k = Some d -> id d = k.

(** Tensor handles are handed out in increasing order: what is
    registered was created before. *)
Definition tensors_fresh (w : process) : Prop :=
  forall t, t ∈ live_tensors w -> (t < next_tensor w)%nat.

(** The tensors created between two states. *)
Definition created_between (w w' : process) : gset nat :=
  list_to_set (seq (next_tensor w) (next_tensor w' - next_tensor w)).

Definition is_dispose (e : nat * event) : bool :=
  match e.2 with
  | CallDispose _ => true
  | _ => false
  end.

Definition is_storage_call (e : nat * event) : bool :=
  match e.2 with
  | CallExists | CallLoadGraphModel => true
  | _ => false
  end.

(** The messages written with [console.error], in order. *)
Definition logged (evs : list (nat * event)) : list string :=
  omap (fun e => match e.2 with ConsoleError what => Some what | _ => None end) evs.

(** A request that has not called [predict] yet. *)
Definition before_predict (k : pc) : bool :=
  match k with
  | Start | AwaitExists | AwaitLoadGraphModel => true
  | _ => false
  end.

(** A request whose collaborators all succeed, with a model answering 0.8. *)
Definition cancer_stub : outside :=
  stub (Resolved white_pixel) (Resolved (rgb_model f32_0_8)) (Resolved tt).

(** A collection that holds a document already, and two requests
    that generate identifiers of their own. *)
Definition earlier_record : PredictionRecord :=
  {| id := "0a7e"; result := "Non-cancer";
     suggestion := "Penyakit kanker tidak terdeteksi.";
     createdAt := "2023-12-31T00:00:00.000Z" |}.

Definition stocked_process : process :=
  Process None {[ "0a7e"%string := earlier_record ]} ∅ 0 0 [].

Definition other_stub : outside :=
  {| storage_exists := Resolved true;
     tf_loadGraphModel := Resolved (rgb_model f32_0_3);
     tf_decodeImage := fun _ => Resolved white_pixel;
     uuidv4 := "9b1d";
     date_toISOString := "2024-01-02T00:00:00.000Z";
     firestore_set := Resolved tt |}.

Definition two_writers : list task :=
  spawn [ (Some [], cancer_stub); (Some [], other_stub) ].

(** Both requests resumed in turn until each has answered. *)
Definition to_the_end : list nat := [0; 1; 0; 1; 0; 1; 0; 1; 0; 1]%nat.

(** The process after one such request: the slot is filled. *)
Definition warm_process : process := (handle 0 (Some []) cancer_stub fresh_process).1.

(** Requests served one after the other, numbered from [rid]; the
    answers are returned in order. *)
Fixpoint serve (rid : nat) (reqs : list (option (list Byte.byte) * outside))
    (w : process) : process * list pc :=
  match reqs with
  | [] => (w, [])
  | r :: rest =>
      let '(w', k) := handle rid r.1 r.2 w in
      let '(w'', ks) := serve (S rid) rest w' in
      (w'', k :: ks)
  end.

Definition is_success (k : pc) : bool :=
  match k with
  | Done res => Nat.eqb (status res) 200
  | _ => false
  end.

Definition successes (ks : list pc) : nat :=
  length (filter (fun k => is_success k = true) ks).

(** The failures that come out of [loadModel]: the slot is empty and
    the artifact is not there, or cannot be asked for, or does not load. *)
Definition load_fails (o : outside) (w : process) : Prop :=
  cancerModel w = None /\
  (storage_exists o <> Resolved true \/ tf_loadGraphModel o = Rejected).

(** How many of the calls picked by [sel] request [rid] made in [evs]. *)
Definition calls_of (sel : nat * event -> bool) (rid : nat)
    (evs : list (nat * event)) : nat :=
  length (filter (fun e => e.1 = rid /\ sel e = true) evs).

(** A request that has not attempted the write yet. *)
Definition before_set (k : pc) : bool :=
  match k with
  | Start | AwaitExists | AwaitLoadGraphModel | AwaitPredict _ _ _ _ _ => true
  | _ => false
  end.

(** Every request has made at most one of the calls picked by [sel],
    and none while it is in a state that [early] holds of. *)
Definition at_most_once (sel : nat * event -> bool) (early : pc -> bool)
    (s : system) : Prop :=
  forall i,
    (calls_of sel i (trace s.1) <= 1)%nat /\
    match s.2 !! i with
    | Some t => early (task_at t) = true -> calls_of sel i (trace s.1) = 0%nat
    | None => calls_of sel i (trace s.1) = 0%nat
    end.

(** What a segment may add, for calls that are made once on leaving
    the states [early] holds of. *)
Definition emits_once (sel : nat * event -> bool) (early : pc -> bool) : Prop :=
  forall rid file o at_ w,
    exists evs,
      trace (resume rid file o at_ w).1 = trace w ++ evs /\
      Forall (fun e => e.1 = rid) evs /\
      (length (filter (fun e => sel e = true) evs) <= 1)%nat /\
      (early at_ = false ->
         filter (fun e => sel e = true) evs = [] /\
         early (resume rid file o at_ w).2 = false) /\
      (early (resume rid file o at_ w).2 = true ->
         filter (fun e => sel e = true) evs = []).

(** * Properties *)

Arguments Tf.resizeBilinear : simpl never.
Arguments JS.toFixed : simpl never.
Arguments JS.parseFloat : simpl never.
Arguments JS.mul : simpl never.
Arguments score_of : simpl never.
Arguments result_of : simpl never.
Arguments suggestion_of : simpl never.
Arguments resume rid file o !at_ w /.
Arguments segment rid file o !at_ /.
Arguments handle rid file o w /.

(** ** Running the handler symbolically *)

Ltac unfold_exec :=
  unfold loadModel_begin, loadModel_exists,
    loadModel_loaded, loadModel_catch, preprocess_and_predict,
    interpret_and_save, cleanup_and_respond, of_reply, of_option, emit,
    read_cancerModel, assign_cancerModel, new_model, new_tensor, dispose,
    store, throw, mbind, mret, exec_bind, exec_ret in *.

(** Split on the answer of the next collaborator the handler consults. *)
Ltac split_atom :=
  match goal with
  | |- context [negb ?b] => is_var b; destruct b
  | |- context [match ?x with _ => _ end] =>
      first [ is_var x
            | lazymatch x with
              | Tf.resizeBilinear _ _ _ => idtac
              | predict _ _ => idtac
              | ?f _ => is_var f
              end ];
      destruct x eqn:?
  end.

Ltac run_handler :=
  repeat first [ progress (cbn; unfold_exec; cbn) | split_atom ].

Ltac open_request w o :=
  let cm := fresh "cm" in let col := fresh "col" in let lt := fresh "lt" in
  let nt := fresh "nt" in let nm := fresh "nm" in let tr := fresh "tr" in
  let ex := fresh "ex" in let ld := fresh "ld" in let dec := fresh "dec" in
  let uu := fresh "uu" in let dt := fresh "dt" in let fs := fresh "fs" in
  destruct w as [cm col lt nt nm tr]; destruct o as [ex ld dec uu dt fs].

(** The handler always answers: five segments are enough. *)
Lemma handle_responds rid file o w :
  exists res, (handle rid file o w).2 = Done res.
Proof.
  open_request w o. destruct file as [buf|]; run_handler; eauto.
Qed.

(** ** Binary64 rounding, as far as the score's range needs it *)

Lemma digits2_pos_size m : digits2_pos m = Pos.size m.
Proof. induction m as [m IH|m IH|]; cbn; by rewrite ?IH. Qed.

Lemma digits2_upper m n : Zpos m < 2 ^ n -> Zpos (digits2_pos m) <= n.
Proof.
  intros Hm. rewrite digits2_pos_size.
  destruct (Z.le_gt_cases (Zpos (Pos.size m)) n) as [|Hgt]; [ done | exfalso ].
  pose proof (Pos.size_le m) as Hle.
  assert (H2 : 2 ^ Zpos (Pos.size m) <= 2 * Zpos m).
  { change (2 * Zpos m) with (Zpos m~0). rewrite <- (Pos2Z.inj_pow 2). lia. }
  assert (0 <= n).
  { destruct (Z.le_gt_cases 0 n); [ done | ].
    rewrite Z.pow_neg_r in Hm by lia. lia. }
  assert (2 ^ (n + 1) <= 2 ^ Zpos (Pos.size m)) by (apply Z.pow_le_mono_r; lia).
  rewrite Z.pow_add_r in * by lia. lia.
Qed.

Lemma shr_1_m mrs : 0 <= shr_m mrs -> shr_m (shr_1 mrs) = shr_m mrs / 2.
Proof.
  destruct mrs as [m r s]. cbn [shr_m]. intros Hm.
  rewrite <- Z.div2_div.
  destruct m as [|[p|p|]|p]; try reflexivity. lia.
Qed.

Lemma iter_shr_1_m k : forall mrs,
  0 <= shr_m mrs ->
  shr_m (SpecFloat.iter_pos shr_1 k mrs) = shr_m mrs / 2 ^ Zpos k.
Proof.
  assert (Hpos : forall j, 0 < 2 ^ Zpos j) by (intros; apply Z.pow_pos_nonneg; lia).
  induction k as [k IH|k IH|]; intros mrs Hm; cbn [SpecFloat.iter_pos].
  - assert (H1 : 0 <= shr_m (shr_1 mrs)).
    { rewrite shr_1_m by done. apply Z.div_pos; lia. }
    assert (H2 : 0 <= shr_m (SpecFloat.iter_pos shr_1 k (shr_1 mrs))).
    { rewrite IH by done. apply Z.div_pos; [ done | apply Hpos ]. }
    rewrite IH, IH, shr_1_m by done.
    pose proof (Hpos k).
    rewrite !Z.div_div by lia. f_equal.
    replace (Zpos k~1) with (Zpos k + Zpos k + 1) by lia.
    rewrite !Z.pow_add_r by lia. lia.
  - assert (H2 : 0 <= shr_m (SpecFloat.iter_pos shr_1 k mrs)).
    { rewrite IH by done. apply Z.div_pos; [ done | apply Hpos ]. }
    rewrite IH, IH by done.
    pose proof (Hpos k).
    rewrite !Z.div_div by lia. f_equal.
    replace (Zpos k~0) with (Zpos k + Zpos k) by lia.
    rewrite !Z.pow_add_r by lia. lia.
  - rewrite shr_1_m by done. reflexivity.
Qed.

Lemma shr_spec mrs e k :
  0 <= shr_m mrs ->
  (shr mrs e k).2 = e + Z.max k 0 /\
  shr_m (shr mrs e k).1 = shr_m mrs / 2 ^ Z.max k 0.
Proof.
  intros Hm. destruct k as [|k|k]; cbn [shr fst snd].
  - rewrite Z.max_id, Z.add_0_r, Z.pow_0_r, Z.div_1_r. done.
  - rewrite Z.max_l by lia. split; [ reflexivity | by apply iter_shr_1_m ].
  - rewrite Z.max_r by lia. rewrite Z.add_0_r, Z.pow_0_r, Z.div_1_r. done.
Qed.

Lemma round_nearest_even_bounds m l :
  m <= round_nearest_even m l <= m + 1.
Proof.
  destruct l as [|[| |]]; cbn; try lia. destruct (Z.even m); lia.
Qed.

Lemma Zdigits2_upper m n : 0 <= m < 2 ^ n -> 0 <= n -> Zdigits2 m <= n.
Proof.
  intros [Hm Hlt] Hn. destruct m as [|p|p]; cbn; [ done | | lia ].
  by apply digits2_upper.
Qed.

Lemma shr_record_of_loc_m m l : shr_m (shr_record_of_loc m l) = m.
Proof. by destruct l as [|[| |]]. Qed.

(** A mantissa that stands for less than 100 is rounded to a Number that
    is not above 100, whatever was cut off behind it. *)
Lemma round_below_100 (M E : Z) (lx : location) :
  0 <= M -> E < 0 -> M < 100 * 2 ^ (- E) ->
  binary_round_aux 53 1024 false M E lx = S754_zero false \/
  exists m e,
    binary_round_aux 53 1024 false M E lx = S754_finite false m e /\
    e < 0 /\ Zpos m <= 100 * 2 ^ (- e).
Proof.
  intros HM0 HE HM.
  assert (Hpow : forall j, 0 <= j -> 0 < 2 ^ j) by (intros; apply Z.pow_pos_nonneg; lia).
  unfold binary_round_aux, shr_fexp.
  set (k1 := fexp 53 1024 (Zdigits2 M + E) - E).
  destruct (shr_spec (shr_record_of_loc M lx) E k1) as [He1 Hm1];
    [ rewrite shr_record_of_loc_m; lia | ].
  rewrite shr_record_of_loc_m in Hm1.
  destruct (shr (shr_record_of_loc M lx) E k1) as [mrs1 e1].
  cbn [fst snd] in He1, Hm1.
  (* the exponent after the first shift *)
  assert (Hd1 : Zdigits2 M <= 7 - E).
  { apply Zdigits2_upper; [ | lia ]. split; [ lia | ].
    replace (7 - E) with (7 + - E) by lia. rewrite Z.pow_add_r by lia.
    pose proof (Hpow (- E) ltac:(lia)). change (2 ^ 7) with 128. lia. }
  assert (He1neg : e1 < 0) by (unfold k1, fexp, emin in *; lia).
  set (j1 := Z.max k1 0) in *.
  assert (Hj1 : 0 <= j1) by (unfold j1; lia).
  pose proof (Hpow j1 Hj1) as Hp1. pose proof (Hpow (- e1) ltac:(lia)) as Hpe1.
  assert (Hsplit : 2 ^ (- E) = 2 ^ (- e1) * 2 ^ j1).
  { rewrite <- Z.pow_add_r by lia. f_equal. lia. }
  assert (Hfloor : shr_m mrs1 < 100 * 2 ^ (- e1)).
  { rewrite Hm1. apply Z.div_lt_upper_bound; [ done | ]. rewrite Hsplit in HM. lia. }
  assert (Hfloor0 : 0 <= shr_m mrs1).
  { rewrite Hm1. apply Z.div_pos; lia. }
  pose proof (round_nearest_even_bounds (shr_m mrs1) (loc_of_shr_record mrs1)) as Hrne.
  set (m1 := round_nearest_even (shr_m mrs1) (loc_of_shr_record mrs1)) in *.
  (* the second shift *)
  cbn [shr_record_of_loc].
  set (k2 := fexp 53 1024 (Zdigits2 m1 + e1) - e1).
  destruct (shr_spec {| shr_m := m1; shr_r := false; shr_s := false |} e1 k2)
    as [He2 Hm2]; [ cbn; lia | ].
  destruct (shr {| shr_m := m1; shr_r := false; shr_s := false |} e1 k2)
    as [mrs2 e2]. cbn [fst snd shr_m] in He2, Hm2.
  assert (Hd2 : Zdigits2 m1 <= 7 - e1).
  { apply Zdigits2_upper; [ | lia ]. split; [ lia | ].
    replace (7 - e1) with (7 + - e1) by lia. rewrite Z.pow_add_r by lia.
    change (2 ^ 7) with 128. lia. }
  assert (He2neg : e2 < 0) by (unfold k2, fexp, emin in *; lia).
  set (j2 := Z.max k2 0) in *.
  assert (Hj2 : 0 <= j2) by (unfold j2; lia).
  pose proof (Hpow j2 Hj2) as Hp2. pose proof (Hpow (- e2) ltac:(lia)) as Hpe2.
  assert (Hsplit2 : 2 ^ (- e1) = 2 ^ (- e2) * 2 ^ j2).
  { rewrite <- Z.pow_add_r by lia. f_equal. lia. }
  assert (Hm2le : shr_m mrs2 <= 100 * 2 ^ (- e2)).
  { rewrite Hm2.
    replace (100 * 2 ^ (- e2)) with ((100 * 2 ^ (- e2) * 2 ^ j2) / 2 ^ j2)
      by (apply Z.div_mul; lia).
    apply Z.div_le_mono; [ done | ]. rewrite Hsplit2 in Hfloor. lia. }
  assert (Hm2pos : 0 <= shr_m mrs2).
  { rewrite Hm2. apply Z.div_pos; lia. }
  destruct (shr_m mrs2) as [|m|m]; [ by left | | lia ].
  right. exists m, e2.
  assert (Hle : (e2 <=? 1024 - 53) = true) by (apply Z.leb_le; lia).
  rewrite Hle. done.
Qed.

Lemma digits2_lower m : 2 ^ (Zpos (digits2_pos m) - 1) <= Zpos m.
Proof.
  rewrite digits2_pos_size.
  pose proof (Pos.size_le m) as Hle.
  assert (H2 : 2 ^ Zpos (Pos.size m) <= 2 * Zpos m).
  { change (2 * Zpos m) with (Zpos m~0). rewrite <- (Pos2Z.inj_pow 2). lia. }
  replace (Zpos (Pos.size m)) with (Zpos (Pos.size m) - 1 + 1) in H2 by lia.
  rewrite Z.pow_add_r in H2 by lia. lia.
Qed.

Lemma digits2_gt m : Zpos m < 2 ^ Zpos (digits2_pos m).
Proof.
  rewrite digits2_pos_size. pose proof (Pos.size_gt m) as Hgt.
  rewrite <- (Pos2Z.inj_pow 2). lia.
Qed.

(** The mantissa and exponent of a valid finite Number. *)
Lemma valid_finite s m e :
  valid_binary 53 1024 (S754_finite s m e) = true ->
  Zpos m < 2 ^ 53 /\ -1074 <= e /\ (-1074 < e -> 2 ^ 52 <= Zpos m).
Proof.
  cbn [valid_binary]. unfold bounded, canonical_mantissa, fexp, emin.
  intros [Hc _]%andb_prop. apply Z.eqb_eq in Hc.
  pose proof (digits2_gt m) as Hgt. pose proof (digits2_lower m) as Hlo.
  split_and!.
  - eapply Z.lt_le_trans; [ exact Hgt | ]. apply Z.pow_le_mono_r; lia.
  - lia.
  - intros He. eapply Z.le_trans; [ | exact Hlo ]. apply Z.pow_le_mono_r; lia.
Qed.

(** A probability times 100: a zero, or a positive Number that is not
    above 100. *)
Lemma mul_100_of_probability x :
  valid_binary 53 1024 x = true ->
  JS.le JS.num_0 x = true -> JS.le x JS.num_1 = true ->
  (exists s, JS.mul x JS.num_100 = S754_zero s) \/
  exists m e, JS.mul x JS.num_100 = S754_finite false m e /\
              e < 0 /\ Zpos m <= 100 * 2 ^ (- e).
Proof.
  intros Hvalid H0 H1. destruct x as [s|s| |s m e].
  - left. exists (xorb s false). reflexivity.
  - destruct s; discriminate.
  - discriminate.
  - destruct s; [ discriminate | ].
    apply valid_finite in Hvalid as (Hm & He & Hnormal).
    unfold JS.le, SFleb, SFcompare, JS.num_1 in H1. revert H1.
    destruct (Z.compare_spec e (-52)) as [-> | Hlt | Hgt]; intros H1;
      [ | | discriminate ].
    + (* x = 1 *)
      assert (m = 4503599627370496%positive) as ->.
      { specialize (Hnormal ltac:(lia)). change (2 ^ 52) with 4503599627370496 in Hnormal.
        revert H1.
        destruct (Pos.compare_cont Eq m 4503599627370496) eqn:Hc; intros H1;
          [ | | discriminate ].
        - by apply Pos.compare_eq in Hc.
        - apply (Pos2Z.pos_lt_pos m 4503599627370496) in Hc. lia. }
      right. exists 7036874417766400%positive, (-46).
      split; [ vm_compute; reflexivity | ]. split; [ lia | ].
      change (- -46) with 46. change (2 ^ 46) with 70368744177664. lia.
    + unfold JS.mul, SFmul, JS.num_100, JS.prec, JS.emax. cbn [xorb].
      destruct (round_below_100 (Zpos (m * 7036874417766400)) (e + -46) loc_Exact)
        as [Hz | Hfin].
      * lia.
      * lia.
      * rewrite Pos2Z.inj_mul.
        assert (Hsplit : 2 ^ (- (e + -46)) = 2 ^ 99 * 2 ^ (- e - 53)).
        { rewrite <- Z.pow_add_r by lia. f_equal. lia. }
        rewrite Hsplit.
        assert (0 < 2 ^ (- e - 53)) by (apply Z.pow_pos_nonneg; lia).
        change (2 ^ 53) with 9007199254740992 in Hm.
        change (2 ^ 99) with 633825300114114700748351602688.
        nia.
      * left. eauto.
      * right. exact Hfin.
Qed.

Lemma toFixed_below_100 m e :
  e < 0 -> Zpos m <= 100 * 2 ^ (- e) ->
  exists n, JS.toFixed (S754_finite false m e) 2 = JS.TxtDecimal false n 2 /\
            0 <= n <= 10000.
Proof.
  intros He Hm. destruct e as [|p|p]; try lia.
  change (- Zneg p) with (Zpos p) in Hm.
  assert (Hp : 0 < 2 ^ Zpos p) by (apply Z.pow_pos_nonneg; lia).
  unfold JS.toFixed, JS.dyadic_geb.
  assert (Hsmall : (10 ^ 21 * 2 ^ Zpos p <=? Zpos m) = false).
  { apply Z.leb_gt. change (10 ^ 21) with 1000000000000000000000. nia. }
  rewrite Hsmall. eexists. split; [ reflexivity | ].
  unfold JS.nearest_scaled. change (10 ^ 2) with 100.
  rewrite Z.pow_add_r by lia. change (2 ^ 1) with 2.
  split.
  - apply Z.div_pos; lia.
  - apply Z.lt_succ_r. apply Z.div_lt_upper_bound; lia.
Qed.


(** On valid finite Numbers, [> 50] is the order of the rationals. *)
Lemma gt_50_exact s :
  valid_binary 53 1024 s = true -> JS.is_finite s = true ->
  (JS.gt s JS.num_50 = true <-> (50 < JS.to_Q s)%Q).
Proof.
  intros Hvalid Hfin. destruct s as [sg|sg| |sg m e]; try discriminate Hfin.
  - split; [ discriminate | intros H; discriminate H ].
  - apply valid_finite in Hvalid as (Hm & He & Hnormal).
    change (2 ^ 53) with 9007199254740992 in Hm.
    change (2 ^ 52) with 4503599627370496 in Hnormal.
    unfold JS.gt, SFltb, SFcompare, JS.num_50, JS.to_Q, Qlt. cbn [Qnum Qden].
    destruct sg.
    + split; [ discriminate | ]. intros H. exfalso.
      destruct e as [|p|p]; cbn in H; lia.
    + destruct (Z.compare_spec (-47) e) as [<- | Hlt | Hgt].
      * cbn [Qnum Qden]. change (Z.pos (2 ^ 47)) with 140737488355328.
        change (Pos.compare_cont Eq 7036874417766400 m)
          with (Pos.compare 7036874417766400 m).
        rewrite Pos2Z.inj_compare.
        destruct (Z.compare_spec 7036874417766400 (Zpos m)); split; intros; try done; lia.
      * split; [ intros _ | done ]. specialize (Hnormal ltac:(lia)).
        destruct e as [|p|p]; cbn [Qnum Qden].
        -- lia.
        -- assert (0 < 2 ^ Zpos p) by (apply Z.pow_pos_nonneg; lia). nia.
        -- rewrite Pos2Z.inj_pow. change (Z.pos 2) with 2.
           assert (2 ^ Zpos p <= 2 ^ 46) by (apply Z.pow_le_mono_r; lia).
           change (2 ^ 46) with 70368744177664 in *. lia.
      * split; [ discriminate | ]. intros H. exfalso.
        destruct e as [|p|p]; try lia. cbn [Qnum Qden] in H.
        rewrite Pos2Z.inj_pow in H. change (Z.pos 2) with 2 in H.
        assert (2 ^ 48 <= 2 ^ Zpos p) by (apply Z.pow_le_mono_r; lia).
        change (2 ^ 48) with 281474976710656 in *. lia.
Qed.

(** ** The result interpreter (lines 84-88) *)

(** C2: the label is Cancer exactly when the score exceeds 50 (as
    JavaScript compares Numbers, which on finite Numbers is the order of
    the rationals they stand for); it is Non-cancer otherwise and at 50
    itself, and the suggestion is the referral text for Cancer and the
    no-detection text otherwise. *)
Theorem interpret_threshold (s : JS.number) :
  ((interpret s).1 = "Cancer"%string <-> JS.gt s JS.num_50 = true) /\
  (JS.gt s JS.num_50 = true ->
     interpret s = ("Cancer", "Segera periksa ke dokter!")%string) /\
  (JS.gt s JS.num_50 = false ->
     interpret s = ("Non-cancer", "Penyakit kanker tidak terdeteksi.")%string) /\
  interpret JS.num_50 = ("Non-cancer", "Penyakit kanker tidak terdeteksi.")%string /\
  (valid_binary 53 1024 s = true -> JS.is_finite s = true ->
     ((interpret s).1 = "Cancer"%string <-> (50 < JS.to_Q s)%Q)).
Proof.
  assert (Hlabel : (interpret s).1 = "Cancer"%string <-> JS.gt s JS.num_50 = true).
  { unfold interpret, result_of. destruct (JS.gt s JS.num_50); cbn; split; congruence. }
  split_and!.
  - exact Hlabel.
  - unfold interpret, result_of, suggestion_of. by intros ->.
  - unfold interpret, result_of, suggestion_of. by intros ->.
  - reflexivity.
  - intros Hvalid Hfin. rewrite Hlabel. by apply gt_50_exact.
Qed.

(** ** The confidence score (lines 79-84) *)

(** Rounding to the nearest integer, ties upwards, of [a / d]. *)
Lemma nearest_quotient_bounds a d :
  0 < d ->
  2 * d * ((2 * a + d) / (2 * d)) <= 2 * a + d < 2 * d * ((2 * a + d) / (2 * d)) + 2 * d.
Proof.
  intros Hd.
  pose proof (Z.mul_div_le (2 * a + d) (2 * d) ltac:(lia)).
  pose proof (Z.mul_succ_div_gt (2 * a + d) (2 * d) ltac:(lia)).
  lia.
Qed.

Lemma nearest_scaled_is_nearest f m e :
  0 <= f ->
  let n := JS.nearest_scaled f m e in
  let x := JS.to_Q (S754_finite false m e) in
  (- (1 # 2) < inject_Z n - inject_Z (10 ^ f) * x)%Q /\
  (inject_Z n - inject_Z (10 ^ f) * x <= 1 # 2)%Q.
Proof.
  intros Hf n x. subst n x. unfold JS.nearest_scaled, JS.to_Q.
  assert (H10 : 0 < 10 ^ f) by (apply Z.pow_pos_nonneg; lia).
  destruct e as [|p|p].
  - unfold Qlt, Qle, Qminus, Qplus, Qmult, Qopp, inject_Z. cbn. lia.
  - unfold Qlt, Qle, Qminus, Qplus, Qmult, Qopp, inject_Z. cbn. lia.
  - pose proof (nearest_quotient_bounds (Zpos m * 10 ^ f) (2 ^ Zpos p)
                  ltac:(apply Z.pow_pos_nonneg; lia)) as Hn.
    replace (2 ^ (Z.pos p + 1)) with (2 * 2 ^ Z.pos p)
      by (rewrite Z.pow_add_r by lia; lia).
    set (n := (2 * (Z.pos m * 10 ^ f) + 2 ^ Z.pos p) / (2 * 2 ^ Z.pos p)) in *.
    unfold Qlt, Qle, Qminus, Qplus, Qmult, Qopp, inject_Z. cbn.
    rewrite !Pos.mul_1_l, !Pos2Z.inj_pow. change (Z.pos 2) with 2.
    set (d := 2 ^ Z.pos p) in *. lia.
Qed.

Lemma Zdigits2_53_54 M :
  4503599627370496 <= M < 18014398509481984 ->
  (Zdigits2 M = 53 /\ M < 9007199254740992) \/
  (Zdigits2 M = 54 /\ 9007199254740992 <= M).
Proof.
  intros [Hlo Hhi]. destruct M as [|p|p]; try lia. cbn [Zdigits2].
  pose proof (digits2_lower p) as H1. pose proof (digits2_gt p) as H2.
  set (D := Zpos (digits2_pos p)) in *.
  assert (HD1 : D - 1 < 54).
  { apply (Z.pow_lt_mono_r_iff 2); [ lia | lia | ].
    change (2 ^ 54) with 18014398509481984. lia. }
  assert (HD2 : 52 < D).
  { apply (Z.pow_lt_mono_r_iff 2); [ lia | lia | ].
    change (2 ^ 52) with 4503599627370496. lia. }
  assert (D = 53 \/ D = 54) as [HD | HD] by lia; rewrite HD in *.
  - left. change (2 ^ 53) with 9007199254740992 in H2. lia.
  - right. change (2 ^ (54 - 1)) with 9007199254740992 in H1. lia.
Qed.





(** The two mock outputs of the specification's scenarios. *)
Example score_of_0_8 :
  JS.render (predictionValue_of [f32_0_8]) = Some "80.00"%string /\
  score_of [f32_0_8] = JS.of_dyadic 80 0 /\
  interpret (score_of [f32_0_8]) = ("Cancer", "Segera periksa ke dokter!")%string.
Proof. vm_compute. split_and!; reflexivity. Qed.

Example score_of_0_3 :
  JS.render (predictionValue_of [f32_0_3]) = Some "30.00"%string /\
  score_of [f32_0_3] = JS.of_dyadic 30 0 /\
  interpret (score_of [f32_0_3]) = ("Non-cancer", "Penyakit kanker tidak terdeteksi.")%string.
Proof. vm_compute. split_and!; reflexivity. Qed.

(** An output tensor without elements: [undefined * 100] is [NaN]. *)
Example score_of_empty_output :
  score_of [] = S754_nan /\ (interpret (score_of [])).1 = "Non-cancer"%string.
Proof. vm_compute. split; reflexivity. Qed.

(** [parseFloat] of a decimal of at most 100.00 is a zero or a positive
    Number that is not above 100. *)
Lemma parseFloat_below_100 n :
  0 <= n <= 10000 ->
  JS.parseFloat (JS.TxtDecimal false n 2) = S754_zero false \/
  exists m e, JS.parseFloat (JS.TxtDecimal false n 2) = S754_finite false m e /\
              e < 0 /\ Zpos m <= 100 * 2 ^ (- e).
Proof.
  intros Hn. destruct n as [|p|p]; [ by left | | lia ].
  destruct (decide (Zpos p = 10000)) as [Hp | Hp].
  { injection Hp as ->. right. exists 7036874417766400%positive, (-46).
    split; [ vm_compute; reflexivity | ]. split; [ lia | ].
    change (- -46) with 46. change (2 ^ 46) with 70368744177664. lia. }
  unfold JS.parseFloat, JS.div, SFdiv, SFdiv_core_binary, JS.prec, JS.emax.
  change (Z.to_pos (10 ^ 2)) with 100%positive.
  change (Zdigits2 100) with 7. cbn [xorb].
  assert (Hd : Zdigits2 (Zpos p) <= 14).
  { apply Zdigits2_upper; [ | lia ]. change (2 ^ 14) with 16384. lia. }
  assert (Hd0 : 0 < Zdigits2 (Zpos p)) by (cbn; lia).
  set (d := Zdigits2 (Zpos p)) in *.
  replace (Z.min (fexp 53 1024 (d + 0 - (7 + 0))) (0 - 0)) with (d - 60)
    by (unfold fexp, emin; lia).
  replace (0 - 0 - (d - 60)) with (60 - d) by lia.
  destruct (60 - d) as [|sh|sh] eqn:Hsh; try lia.
  rewrite Z.shiftl_mul_pow2 by lia.
  pose proof (Z_div_mod (Zpos p * 2 ^ Zpos sh) 100 ltac:(lia)) as Hdiv.
  destruct (Z.div_eucl (Zpos p * 2 ^ Zpos sh) 100) as [q r].
  destruct Hdiv as [Hq Hr].
  assert (Hpow : 0 < 2 ^ Zpos sh) by (apply Z.pow_pos_nonneg; lia).
  destruct (round_below_100 q (d - 60) (new_location 100 r)) as [Hz | Hfin].
  - nia.
  - lia.
  - replace (- (d - 60)) with (Zpos sh) by lia. nia.
  - by left.
  - by right.
Qed.

Lemma to_Q_below_100 m e :
  e < 0 -> Zpos m <= 100 * 2 ^ (- e) ->
  (0 <= JS.to_Q (S754_finite false m e))%Q /\
  (JS.to_Q (S754_finite false m e) <= 100)%Q.
Proof.
  intros He Hm. destruct e as [|p|p]; try lia.
  change (- Zneg p) with (Zpos p) in Hm.
  unfold JS.to_Q, Qle. cbn [Qnum Qden].
  rewrite Pos2Z.inj_pow. change (Z.pos 2) with 2. lia.
Qed.

(** C8, refuted as worded: a model whose first output is 1.5 gives the
    score 150. *)
Lemma score_above_100 :
  valid_binary 53 1024 num_1_5 = true /\
  score_of [num_1_5] = JS.of_dyadic 150 0 /\
  JS.le (score_of [num_1_5]) JS.num_100 = false /\
  ~ (JS.to_Q (score_of [num_1_5]) <= 100)%Q.
Proof.
  split_and!; [ reflexivity | vm_compute; reflexivity | vm_compute; reflexivity | ].
  vm_compute. intros H. by apply H.
Qed.

(** C8, as the code has it: when the first output scalar is a Number in
    [0, 1], the score is a finite Number in [0, 100]. *)
Theorem score_in_range_for_probabilities (output : list JS.number) :
  valid_binary 53 1024 (first_scalar output) = true ->
  JS.le JS.num_0 (first_scalar output) = true ->
  JS.le (first_scalar output) JS.num_1 = true ->
  JS.is_finite (score_of output) = true /\
  (0 <= JS.to_Q (score_of output))%Q /\
  (JS.to_Q (score_of output) <= 100)%Q.
Proof.
  intros Hvalid H0 H1. unfold score_of, predictionValue_of.
  assert (Hparse : forall n, 0 <= n <= 10000 ->
    JS.is_finite (JS.parseFloat (JS.TxtDecimal false n 2)) = true /\
    (0 <= JS.to_Q (JS.parseFloat (JS.TxtDecimal false n 2)))%Q /\
    (JS.to_Q (JS.parseFloat (JS.TxtDecimal false n 2)) <= 100)%Q).
  { intros n Hn.
    destruct (parseFloat_below_100 n Hn) as [-> | (m & e & -> & He & Hm)].
    - split_and!; [ reflexivity | discriminate | discriminate ].
    - split; [ reflexivity | by apply to_Q_below_100 ]. }
  destruct (mul_100_of_probability _ Hvalid H0 H1) as [[s ->] | (m & e & -> & He & Hm)].
  - apply (Hparse 0). lia.
  - destruct (toFixed_below_100 m e He Hm) as (n & -> & Hn). by apply Hparse.
Qed.

Lemma score_in_range_for_probabilities_witness :
  JS.is_finite (score_of [f32_0_8]) = true /\
  (0 <= JS.to_Q (score_of [f32_0_8]))%Q /\
  (JS.to_Q (score_of [f32_0_8]) <= 100)%Q.
Proof.
  apply (score_in_range_for_probabilities [f32_0_8]); vm_compute; reflexivity.
Defined.

(** ** The trace of outgoing calls *)

Lemma only_after_nil {A} (P : A -> Prop) b : only_after P b [].
Proof. intros [|? pre] post H; discriminate H. Qed.

Lemma only_after_seen {A} (P : A -> Prop) b x l :
  P x -> x <> b -> only_after P b (x :: l).
Proof.
  intros HP Hne [|y pre] post H; injection H as -> H.
  - contradiction.
  - by apply Exists_cons_hd.
Qed.

Lemma only_after_skip {A} (P : A -> Prop) b x l :
  x <> b -> only_after P b l -> only_after P b (x :: l).
Proof.
  intros Hne Hl [|y pre] post H; injection H as -> H.
  - contradiction.
  - apply Exists_cons_tl. by eapply Hl.
Qed.

Ltac solve_only_after :=
  intros;
  repeat first
    [ apply only_after_nil
    | apply only_after_seen; [ reflexivity | discriminate ]
    | apply only_after_skip; [ discriminate | ] ].

Ltac solve_elem_of :=
  repeat first [ apply list_elem_of_here | apply list_elem_of_further ].

Ltac flatten_trace :=
  rewrite <- ?app_assoc; cbn [app].

(** ** Requests without a file (lines 60-65) *)

(** C10: a request without a file is answered with the 400 "No image
    uploaded" in its first segment, and the process state, the trace of
    outgoing calls included, is what it was: no load, no preprocessing,
    no inference and no write. *)
Theorem no_file_fails_immediately rid o w :
  resume rid None o Start w = (w, Done no_image) /\
  handle rid None o w = (w, Done no_image).
Proof. split; reflexivity. Qed.

(** ** Building and saving the record (lines 90-99) *)

(** C5: in the calls one request makes, the identifier and the timestamp
    are asked for only after [predict] was called and its output read,
    the write only after both; a request that never read an output
    attempts no write, and a request answered with a 400 leaves the
    collection as it was. *)
Theorem record_built_only_after_inference rid file o w :
  exists evs,
    trace (handle rid file o w).1 = trace w ++ evs /\
    only_after (fun e => is_predict e = true) (rid, CallDataSync) evs /\
    only_after (eq (rid, CallDataSync)) (rid, CallUuid) evs /\
    only_after (eq (rid, CallUuid)) (rid, CallDate) evs /\
    (forall doc, only_after (eq (rid, CallDate)) (rid, CallSet doc) evs) /\
    ((rid, CallDataSync) ∉ evs -> writes_attempted evs = 0%nat) /\
    (forall res, (handle rid file o w).2 = Done res -> status res = 400%nat ->
       predictionsCollection (handle rid file o w).1 = predictionsCollection w).
Proof.
  open_request w o. destruct file as [buf|]; run_handler; flatten_trace.
  all: eexists; (split; [ first [reflexivity | symmetry; apply app_nil_r] | ]).
  all: split_and!;
    lazymatch goal with
    | |- only_after _ _ _ => solve_only_after
    | |- forall _, only_after _ _ _ => solve_only_after
    | |- _ ∉ _ -> _ =>
        first [ reflexivity | intros Hn; exfalso; apply Hn; solve_elem_of ]
    | |- forall _, _ = _ -> _ => intros ? [= <-] ?; first [ reflexivity | discriminate ]
    end.
Qed.

Ltac refute_elem_of H :=
  repeat (apply elem_of_cons in H as [H|H]; [ discriminate H | ]);
  by apply elem_of_nil in H.

(** C6: a request whose upload decodes and resizes, whose model is there
    (cached, or loaded on an empty slot) and answers, attempts the write
    exactly once, under the identifier generated for it; when that write
    is rejected the answer is the 400 and nothing was stored, and when
    it is accepted the answer is the 200 carrying the stored record.
    Every 200 answer comes from a run that made exactly one write
    attempt, the one of its record, and no run makes two; a 400 answer
    stores nothing, and a run that attempted the write is answered with
    the 400 only when the write was rejected. *)
Theorem write_attempted_once_and_failure_surfaced rid file o w :
  exists evs,
    trace (handle rid file o w).1 = trace w ++ evs /\
    (writes_attempted evs <= 1)%nat /\
    (forall buf image resized m output,
       file = Some buf ->
       tf_decodeImage o buf = Resolved image ->
       Tf.resizeBilinear image 224 224 = Some resized ->
       (cancerModel w = Some m \/
        (cancerModel w = None /\ storage_exists o = Resolved true /\
         tf_loadGraphModel o = Resolved (predict m))) ->
       predict m (Tf.expandDims0 (Tf.div resized 255)) = Resolved output ->
       filter (fun e => is_set e = true) evs = [(rid, CallSet (uuidv4 o))] /\
       (firestore_set o = Rejected ->
          (handle rid file o w).2 = Done prediction_error /\
          predictionsCollection (handle rid file o w).1 = predictionsCollection w) /\
       (firestore_set o = Resolved tt ->
          exists doc,
            (handle rid file o w).2 = Done (predicted doc) /\
            id doc = uuidv4 o /\
            predictionsCollection (handle rid file o w).1
            = <[ id doc := doc ]> (predictionsCollection w))) /\
    (forall doc, (handle rid file o w).2 = Done (predicted doc) ->
       filter (fun e => is_set e = true) evs = [(rid, CallSet (id doc))] /\
       firestore_set o = Resolved tt /\
       predictionsCollection (handle rid file o w).1
       = <[ id doc := doc ]> (predictionsCollection w)) /\
    (forall res, (handle rid file o w).2 = Done res -> status res = 400%nat ->
       predictionsCollection (handle rid file o w).1 = predictionsCollection w /\
       (writes_attempted evs = 1%nat -> firestore_set o = Rejected)).
Proof.
  open_request w o. destruct file as [buf|]; run_handler; flatten_trace.
  all: eexists; (split; [ first [reflexivity | symmetry; apply app_nil_r] | ]).
  all: split; [ cbv; lia | ].
  all: split; [ intros buf' image resized m output Hf Hdec Hres Hm Hp;
                try discriminate Hf; injection Hf as <-;
                destruct Hm as [Hm | (Hm & Hex & Hld)];
                try discriminate Hm; try discriminate Hex; try discriminate Hld;
                try (injection Hm as <-); try (injection Hld as ->);
                first [ exfalso; congruence
                      | split_and!;
                        [ reflexivity
                        | intros [=]; try (split; reflexivity)
                        | intros [=]; try (eexists; split_and!; reflexivity) ] ]
              | ].
  all: repeat match goal with u : unit |- _ => destruct u end.
  all: split; [ intros doc [= <-]; split_and!; reflexivity
              | intros res [= <-] Hs; try discriminate Hs;
                (split; [ reflexivity | ]); cbv; intros [=]; try reflexivity ].
Qed.

(** ** The model slot (lines 37-53 and 55-70) *)

(** A load that fails does not touch [cancerModel], whatever the other
    requests did to it meanwhile. *)
Lemma failed_load_keeps_slot rid file o at_ w :
  (at_ = AwaitExists /\ storage_exists o <> Resolved true) \/
  (at_ = AwaitLoadGraphModel /\ tf_loadGraphModel o = Rejected) ->
  (resume rid file o at_ w).2 = Done prediction_error /\
  cancerModel (resume rid file o at_ w).1 = cancerModel w.
Proof.
  intros [[-> Hex] | [-> Hload]]; open_request w o; cbn in *.
  - run_handler; try done. all: split; reflexivity.
  - rewrite Hload. run_handler. split; reflexivity.
Qed.

(** C4: when the existence check or the load fails on an empty slot, the
    request is answered with the 400 and the slot is still empty; the
    next request then goes through [loadModel] again, and if the
    artifact is there by then and its own stages succeed, it is answered
    with the 200 and the slot holds the model it loaded. *)
Theorem failed_load_leaves_slot_empty rid buf o w :
  cancerModel w = None ->
  storage_exists o = Rejected \/ storage_exists o = Resolved false \/
    (storage_exists o = Resolved true /\ tf_loadGraphModel o = Rejected) ->
  (handle rid (Some buf) o w).2 = Done prediction_error /\
  cancerModel (handle rid (Some buf) o w).1 = None /\
  forall rid' buf' o' f image resized output,
    storage_exists o' = Resolved true ->
    tf_loadGraphModel o' = Resolved f ->
    tf_decodeImage o' buf' = Resolved image ->
    Tf.resizeBilinear image 224 224 = Some resized ->
    f (Tf.expandDims0 (Tf.div resized 255)) = Resolved output ->
    firestore_set o' = Resolved tt ->
    let again := handle rid' (Some buf') o' (handle rid (Some buf) o w).1 in
    (rid', CallExists) ∈ trace again.1 /\
    (exists doc, again.2 = Done (predicted doc)) /\
    (exists m, cancerModel again.1 = Some m /\ predict m = f).
Proof.
  intros Hslot Hfail. open_request w o. cbn in Hslot, Hfail. subst cm.
  assert (Hsecond : forall w1, cancerModel w1 = None ->
    forall rid' buf' o' f image resized output,
    storage_exists o' = Resolved true ->
    tf_loadGraphModel o' = Resolved f ->
    tf_decodeImage o' buf' = Resolved image ->
    Tf.resizeBilinear image 224 224 = Some resized ->
    f (Tf.expandDims0 (Tf.div resized 255)) = Resolved output ->
    firestore_set o' = Resolved tt ->
    let again := handle rid' (Some buf') o' w1 in
    (rid', CallExists) ∈ trace again.1 /\
    (exists doc, again.2 = Done (predicted doc)) /\
    (exists m, cancerModel again.1 = Some m /\ predict m = f)).
  { clear. intros w1 Hw1 rid' buf' o' f image resized output.
    open_request w1 o'. cbn in Hw1. subst cm. cbn.
    intros -> -> Hdec Hres Hpred ->.
    repeat first [ progress (cbn; unfold_exec; cbn)
                 | rewrite Hdec | rewrite Hres | rewrite Hpred ].
    split_and!; [ | eauto | eauto ].
    flatten_trace. apply elem_of_app. right. apply list_elem_of_here. }
  destruct Hfail as [-> | [-> | [-> ->]]]; cbn; unfold_exec; cbn.
  all: split_and!; [ reflexivity | reflexivity | ].
  all: apply Hsecond; reflexivity.
Qed.

(** The hypotheses of [failed_load_leaves_slot_empty] hold when the
    artifact is absent at the first request. *)
Lemma failed_load_leaves_slot_empty_witness :
  (handle 0 (Some []) absent_artifact fresh_process).2 = Done prediction_error /\
  cancerModel (handle 0 (Some []) absent_artifact fresh_process).1 = None /\
  forall rid' buf' o' f image resized output,
    storage_exists o' = Resolved true ->
    tf_loadGraphModel o' = Resolved f ->
    tf_decodeImage o' buf' = Resolved image ->
    Tf.resizeBilinear image 224 224 = Some resized ->
    f (Tf.expandDims0 (Tf.div resized 255)) = Resolved output ->
    firestore_set o' = Resolved tt ->
    let again :=
      handle rid' (Some buf') o' (handle 0 (Some []) absent_artifact fresh_process).1 in
    (rid', CallExists) ∈ trace again.1 /\
    (exists doc, again.2 = Done (predicted doc)) /\
    (exists m, cancerModel again.1 = Some m /\ predict m = f).
Proof.
  apply (failed_load_leaves_slot_empty 0%nat [] absent_artifact fresh_process).
  - reflexivity.
  - right. left. reflexivity.
Defined.

(** ** Tensor clean-up (lines 102-105 against lines 117-123) *)

(** The tensor that [decodeImage] returned is still registered when a
    request that got past decoding is answered with the 400. *)
Lemma decoded_tensor_survives_failure rid buf o w :
  (rid, CallResizeBilinear) ∈ trace (handle rid (Some buf) o w).1 ->
  (rid, CallResizeBilinear) ∉ trace w ->
  (handle rid (Some buf) o w).2 = Done prediction_error ->
  next_tensor w ∈ live_tensors (handle rid (Some buf) o w).1.
Proof.
  open_request w o. run_handler; flatten_trace; cbn; intros Hin Hnot Hres.
  all: first
    [ discriminate Hres
    | exfalso; apply elem_of_app in Hin as [Hin|Hin]; [ done | refute_elem_of Hin ]
    | rewrite !elem_of_union, !elem_of_singleton; tauto ].
Qed.

(** C1, on the failing input: when the model rejects the input tensor,
    the request is answered with the 400 and the decoded, the resized,
    the divided and the normalized tensor are all still registered; the
    catch block disposes of nothing. *)
Example tensors_leak_when_inference_fails :
  let o := stub (Resolved rgba_pixel) (Resolved (rgb_model f32_0_8)) (Resolved tt) in
  (handle 0 (Some []) o fresh_process).2 = Done prediction_error /\
  live_tensors (handle 0 (Some []) o fresh_process).1 = {[0; 1; 2; 3]}%nat.
Proof. lazy. split; reflexivity. Qed.

(** The same when the Firestore write is rejected: the prediction tensor
    is left as well. *)
Example tensors_leak_when_write_fails :
  let o := stub (Resolved white_pixel) (Resolved (rgb_model f32_0_8)) Rejected in
  (handle 0 (Some []) o fresh_process).2 = Done prediction_error /\
  live_tensors (handle 0 (Some []) o fresh_process).1 = {[0; 1; 2; 3; 4]}%nat.
Proof. lazy. split; reflexivity. Qed.

(** On the 200 path the four named tensors are disposed of; the result
    of [div], which line 76 never names, stays registered. *)
Lemma success_disposes_named_tensors rid buf o w doc :
  (forall t, t ∈ live_tensors w -> (t < next_tensor w)%nat) ->
  (handle rid (Some buf) o w).2 = Done (predicted doc) ->
  live_tensors (handle rid (Some buf) o w).1 = live_tensors w ∪ {[ (next_tensor w + 2)%nat ]}.
Proof.
  open_request w o. cbn. intros Hfresh.
  run_handler; intros Hres; try discriminate Hres.
  all: apply set_eq; intros x; specialize (Hfresh x);
       rewrite !elem_of_difference, !elem_of_union, !elem_of_singleton; intuition lia.
Qed.

(** ** Concurrent requests and the unguarded slot (lines 55-70) *)

(** Once the slot is filled, a segment neither empties it nor enters
    [loadModel]. *)
Lemma resume_filled_slot rid file o at_ w :
  is_Some (cancerModel w) ->
  is_Some (cancerModel (resume rid file o at_ w).1) /\
  (loading (Task file o (resume rid file o at_ w).2) = true ->
   loading (Task file o at_) = true).
Proof.
  intros [g Hg]. open_request w o. cbn in Hg. subst cm.
  destruct at_, file as [buf|]; run_handler; split; eauto; cbn; congruence.
Qed.

Lemma filter_insert_length {A} (P : A -> Prop) `{!forall x, Decision (P x)}
    (l : list A) i x y :
  l !! i = Some x -> (P y -> P x) ->
  (length (filter P (<[ i := y ]> l)) <= length (filter P l))%nat.
Proof.
  revert i. induction l as [|a l IH]; intros [|i] Hi Hyx; try discriminate Hi.
  - injection Hi as ->. change (<[0%nat:=y]> (x :: l)) with (y :: l).
    rewrite !filter_cons.
    destruct (decide (P y)), (decide (P x)); cbn; try lia. tauto.
  - change (<[S i:=y]> (a :: l)) with (a :: <[i:=y]> l).
    rewrite !filter_cons. specialize (IH i Hi Hyx).
    destruct (decide (P a)); cbn; lia.
Qed.

Lemma schedule_step_filled_slot s i :
  is_Some (cancerModel s.1) ->
  is_Some (cancerModel (schedule_step s i).1) /\
  (loads_in_flight (schedule_step s i) <= loads_in_flight s)%nat.
Proof.
  intros Hs. unfold schedule_step. destruct (s.2 !! i) as [t|] eqn:Hi; [ | auto ].
  pose proof (resume_filled_slot i (task_file t) (task_outside t) (task_at t) s.1 Hs)
    as [Hslot Hload].
  destruct (resume i (task_file t) (task_outside t) (task_at t) s.1) as [w' k].
  split; [ exact Hslot | ]. unfold loads_in_flight. cbn.
  eapply filter_insert_length; [ exact Hi | ]. destruct t; exact Hload.
Qed.

(** With the slot empty, resuming the not yet started requests one after
    the other leaves every one of them inside [loadModel]. *)
Lemma burst_enters_loadModel todo : forall done w,
  cancerModel w = None -> Forall has_file todo ->
  exists w',
    cancerModel w' = None /\
    run_schedule (seq (length done) (length todo)) (w, done ++ spawn todo)
    = (w', done ++ awaiting todo).
Proof.
  induction todo as [|[f o] todo IH]; intros done w Hw Hfiles.
  - exists w. split; [ exact Hw | reflexivity ].
  - apply Forall_cons in Hfiles as [[buf Hf] Hfiles]. cbn in Hf. subst f.
    cbn [length seq spawn awaiting List.map].
    change (run_schedule (length done :: ?l) ?s)
      with (run_schedule l (schedule_step s (length done))).
    unfold schedule_step at 1. cbn [fst snd].
    rewrite list_lookup_middle by reflexivity.
    cbn [task_file task_outside task_at].
    destruct w as [cm col lt nt nm tr]. cbn in Hw. subst cm.
    cbn. unfold_exec. cbn.
    rewrite insert_app_r_alt, Nat.sub_diag by lia.
    change (<[0%nat:=?x]> (?y :: ?l)) with (x :: l).
    destruct (IH (done ++ [Task (Some buf) o AwaitExists])
                (Process None col lt nt nm (tr ++ [(length done, CallExists)]))
                eq_refl Hfiles) as (w' & Hw' & Hrun).
    exists w'. split; [ exact Hw' | ].
    rewrite length_app, Nat.add_1_r in Hrun. rewrite <- !app_assoc in Hrun.
    exact Hrun.
Qed.

Lemma awaiting_all_loading reqs :
  length (filter (fun t => loading t = true) (awaiting reqs)) = length reqs.
Proof.
  induction reqs as [|r reqs IH]; [ reflexivity | ].
  cbn [awaiting List.map]. rewrite filter_cons. cbn. by rewrite <- IH.
Qed.

Lemma burst_loads_in_flight reqs :
  Forall has_file reqs ->
  loads_in_flight (run_schedule (seq 0 (length reqs)) (fresh_process, spawn reqs))
  = length reqs.
Proof.
  intros Hfiles.
  destruct (burst_enters_loadModel reqs [] fresh_process eq_refl Hfiles) as (w' & _ & Hrun).
  cbn [length app] in Hrun. rewrite Hrun. apply awaiting_all_loading.
Qed.

(** C9, refuted as worded: two requests that arrive together are both
    inside [loadModel] after their first segments, and each then hands
    its own model object to [predict].  When the first of them has
    filled the slot, the second, already inside [loadModel], still
    calls [tf.loadGraphModel] and overwrites the slot with its own
    model. *)
Lemma two_loads_in_flight :
  loads_in_flight (run_schedule [0; 1]%nat two_requests) = 2%nat /\
  observed_models 0 (run_schedule [0; 1; 0; 1; 0; 1]%nat two_requests).1 = [0%nat] /\
  observed_models 1 (run_schedule [0; 1; 0; 1; 0; 1]%nat two_requests).1 = [1%nat] /\
  (model_ref <$> cancerModel (run_schedule [0; 1; 0; 0]%nat two_requests).1) = Some 0%nat /\
  calls_of is_load 1 (trace (run_schedule [0; 1; 0; 0]%nat two_requests).1) = 0%nat /\
  calls_of is_load 1 (trace (run_schedule [0; 1; 0; 0; 1]%nat two_requests).1) = 1%nat /\
  (model_ref <$> cancerModel (run_schedule [0; 1; 0; 0; 1; 1]%nat two_requests).1)
  = Some 1%nat /\
  ~ single_flight.
Proof.
  assert (H2 : loads_in_flight (run_schedule [0; 1]%nat two_requests) = 2%nat)
    by (lazy; reflexivity).
  split_and!; [ exact H2 | lazy; reflexivity .. | ].
  intros Hclaim.
  destruct (Hclaim [ (Some [], stub (Resolved white_pixel) (Resolved (constant_model f32_0_8)) (Resolved tt));
           (Some [], stub (Resolved white_pixel) (Resolved (constant_model f32_0_3)) (Resolved tt)) ] [0; 1]%nat) as [Hle _].
  change (loads_in_flight (run_schedule [0; 1]%nat two_requests) <= 1)%nat in Hle.
  rewrite H2 in Hle. lia.
Qed.

(** ** Preprocessing (lines 74-76) *)

Lemma lerp_between (lo hi a b t : Q) :
  (lo <= a <= hi)%Q -> (lo <= b <= hi)%Q -> (0 <= t <= 1)%Q ->
  (lo <= Tf.lerp a b t <= hi)%Q.
Proof. unfold Tf.lerp. intros. split; nra. Qed.

Lemma source_coord_weight old new i :
  (0 <= (Tf.source_coord old new i).2 <= 1)%Q.
Proof.
  unfold Tf.source_coord. cbn [snd].
  set (frac := (inject_Z (Z.of_nat i) * (Z.of_nat old # Pos.of_nat new))%Q).
  assert (Hfrac : (0 <= frac)%Q).
  { unfold frac. apply Qmult_le_0_compat.
    - change 0%Q with (inject_Z 0). rewrite <- Zle_Qle. lia.
    - unfold Qle. cbn. lia. }
  assert (Hfloor : 0 <= Qfloor frac).
  { change 0 with (Qfloor 0). by apply Qfloor_resp_le. }
  rewrite Z.max_r by exact Hfloor.
  pose proof (Qfloor_le frac). pose proof (Qlt_floor frac) as Hlt.
  rewrite inject_Z_plus in Hlt. change (inject_Z 1) with 1%Q in Hlt.
  split; lra.
Qed.

Lemma pixel_byte_valued h w c d b y x ch :
  Forall Tf.byte_valued d -> Tf.byte_valued (Tf.pixel h w c d b y x ch).
Proof.
  intros Hd. unfold Tf.pixel.
  destruct (nth_in_or_default ((((b * h + y) * w + x) * c + ch)%nat) d 0%Q) as [Hin | ->].
  - rewrite Forall_forall in Hd. apply Hd. by apply list_elem_of_In.
  - split; [ apply Qle_refl | discriminate ].
Qed.

Lemma resize_pixel_byte_valued h w c newH newW d b y x ch :
  Forall Tf.byte_valued d ->
  Tf.byte_valued (Tf.resize_pixel h w c newH newW d b y x ch).
Proof.
  intros Hd. unfold Tf.resize_pixel.
  pose proof (source_coord_weight h newH y) as Hy.
  pose proof (source_coord_weight w newW x) as Hx.
  destruct (Tf.source_coord h newH y) as [[y0 y1] fy].
  destruct (Tf.source_coord w newW x) as [[x0 x1] fx].
  cbn [snd] in Hy, Hx.
  apply lerp_between; [ | | exact Hy ];
    (apply lerp_between; [ | | exact Hx ]); by apply pixel_byte_valued.
Qed.

Lemma Forall_flat_map_intro {A B} (P : B -> Prop) (f : A -> list B) l :
  (forall a, Forall P (f a)) -> Forall P (flat_map f l).
Proof.
  intros Hf. induction l as [|a l IH]; cbn; [ constructor | ].
  apply Forall_app. auto.
Qed.

Lemma length_flat_map_const {A B} (f : A -> list B) k l :
  (forall a, length (f a) = k) -> length (flat_map f l) = (length l * k)%nat.
Proof.
  intros Hf. induction l as [|a l IH]; cbn; [ reflexivity | ].
  by rewrite length_app, Hf, IH.
Qed.

Lemma resize_values_byte_valued n h w c newH newW d :
  Forall Tf.byte_valued d ->
  Forall Tf.byte_valued (Tf.resize_values n h w c newH newW d).
Proof.
  intros Hd. unfold Tf.resize_values.
  do 3 (apply Forall_flat_map_intro; intros ?).
  apply Forall_map, Forall_forall. intros ch _. by apply resize_pixel_byte_valued.
Qed.

Lemma resize_values_length n h w c newH newW d :
  length (Tf.resize_values n h w c newH newW d) = (n * (newH * (newW * c)))%nat.
Proof.
  unfold Tf.resize_values.
  rewrite (length_flat_map_const _ (newH * (newW * c))%nat); [ by rewrite length_seq | ].
  intros b. rewrite (length_flat_map_const _ (newW * c)%nat); [ by rewrite length_seq | ].
  intros y. rewrite (length_flat_map_const _ c); [ by rewrite length_seq | ].
  intros x. by rewrite length_map, length_seq.
Qed.

Lemma div_255_unit_valued (v : Q) : Tf.byte_valued v -> Tf.unit_valued (v / 255)%Q.
Proof.
  intros [H0 H255]. split.
  - apply Qle_shift_div_l; [ reflexivity | ]. lra.
  - apply Qle_shift_div_r; [ reflexivity | ]. lra.
Qed.

Lemma prepare_rank3 image h w c :
  Tf.shape image = [h; w; c] ->
  prepare image =
  Some (Tf.Tensor [1; 224; 224; c]%nat
          (List.map (fun v => (v / 255)%Q)
             (Tf.resize_values 1 h w c 224 224 (Tf.values image)))).
Proof.
  intros Hshape. unfold prepare, Tf.resizeBilinear. rewrite Hshape. reflexivity.
Qed.

(** An animated image decodes to rank 4, and is then preprocessed to
    rank 5. *)
Lemma prepare_rank4 image n h w c :
  Tf.shape image = [n; h; w; c] ->
  exists t, prepare image = Some t /\ Tf.shape t = [1; n; 224; 224; c]%nat.
Proof.
  intros Hshape. unfold prepare, Tf.resizeBilinear. rewrite Hshape.
  eexists. split; reflexivity.
Qed.

(** C3, refuted as worded: a well-formed RGBA image is preprocessed to a
    [1 x 224 x 224 x 4] tensor. *)
Lemma rgba_image_keeps_four_channels :
  Tf.decoded_image rgba_pixel 1 1 4 /\
  exists t, prepare rgba_pixel = Some t /\
            Tf.shape t = [1; 224; 224; 4]%nat /\
            Tf.shape t <> [1; 224; 224; 3]%nat.
Proof.
  split.
  - split_and!; [ reflexivity | reflexivity | ].
    repeat constructor; discriminate.
  - eexists. split; [ apply (prepare_rank3 rgba_pixel 1 1 4); reflexivity | ].
    split; [ reflexivity | discriminate ].
Qed.

(** C3, as the code has it: an image that decodes to [h x w x c] bytes
    is preprocessed to a [1 x 224 x 224 x c] tensor, with as many
    elements as that shape has and every element in [0, 1]; the shape is
    [1 x 224 x 224 x 3] for the images that decode to three channels. *)
Theorem prepare_shape_and_range image h w c :
  Tf.decoded_image image h w c ->
  exists t,
    prepare image = Some t /\
    Tf.shape t = [1; 224; 224; c]%nat /\
    (c = 3%nat -> Tf.shape t = [1; 224; 224; 3]%nat) /\
    length (Tf.values t) = Tf.numel (Tf.shape t) /\
    Forall Tf.unit_valued (Tf.values t).
Proof.
  intros (Hshape & _ & Hbytes).
  eexists. split; [ by apply prepare_rank3 | ]. cbn [Tf.shape Tf.values].
  split_and!.
  - reflexivity.
  - by intros ->.
  - rewrite length_map, resize_values_length. unfold Tf.numel. cbn [foldr]. lia.
  - apply Forall_map. eapply Forall_impl.
    + by apply resize_values_byte_valued.
    + intros v. apply div_255_unit_valued.
Qed.

Lemma prepare_shape_and_range_witness :
  Tf.decoded_image white_pixel 1 1 3 /\
  exists t,
    prepare white_pixel = Some t /\
    Tf.shape t = [1; 224; 224; 3]%nat /\
    (3%nat = 3%nat -> Tf.shape t = [1; 224; 224; 3]%nat) /\
    length (Tf.values t) = Tf.numel (Tf.shape t) /\
    Forall Tf.unit_valued (Tf.values t).
Proof.
  assert (H : Tf.decoded_image white_pixel 1 1 3).
  { split_and!; [ reflexivity | reflexivity | ].
    repeat constructor; discriminate. }
  split; [ exact H | ].
  exact (prepare_shape_and_range white_pixel 1 1 3 H).
Defined.

(** The tensor the handler hands to [predict] is [prepare] of the
    decoded image. *)
Lemma predict_receives_prepared rid buf o w m image t :
  cancerModel w = Some m ->
  tf_decodeImage o buf = Resolved image ->
  prepare image = Some t ->
  exists w',
    resume rid (Some buf) o Start w =
    match predict m t with
    | Resolved output =>
        (w', AwaitPredict (next_tensor w) (next_tensor w + 1) (next_tensor w + 3)
               (next_tensor w + 4) output)
    | Rejected => (w', Done prediction_error)
    end.
Proof.
  intros Hm Hdec Hprep. open_request w o. cbn in Hm, Hdec. subst cm.
  unfold prepare in Hprep.
  destruct (Tf.resizeBilinear image 224 224) as [resized|] eqn:Hres;
    [ | discriminate Hprep ].
  injection Hprep as <-.
  cbn. unfold_exec. cbn. rewrite Hdec. cbn. rewrite Hres. cbn.
  destruct (predict m (Tf.expandDims0 (Tf.div resized 255))); cbn.
  - rewrite !Nat.add_succ_r, Nat.add_0_r. eexists. reflexivity.
  - eexists. reflexivity.
Qed.

(** ** The scenarios of the specification, section 8 *)

(** Scenario 1: the model answers 0.8. *)
Example scenario_cancer :
  let o := stub (Resolved white_pixel) (Resolved (rgb_model f32_0_8)) (Resolved tt) in
  let doc := record_of "Cancer" "Segera periksa ke dokter!" in
  (handle 0 (Some []) o fresh_process).2 = Done (predicted doc) /\
  predictionsCollection (handle 0 (Some []) o fresh_process).1 !! "3f2c"%string = Some doc.
Proof. lazy. split; reflexivity. Qed.

(** Scenario 2: the model answers 0.3. *)
Example scenario_non_cancer :
  let o := stub (Resolved white_pixel) (Resolved (rgb_model f32_0_3)) (Resolved tt) in
  let doc := record_of "Non-cancer" "Penyakit kanker tidak terdeteksi." in
  (handle 0 (Some []) o fresh_process).2 = Done (predicted doc) /\
  predictionsCollection (handle 0 (Some []) o fresh_process).1 !! "3f2c"%string = Some doc.
Proof. lazy. split; reflexivity. Qed.

(** Scenario 3: the bytes do not decode. *)
Example scenario_invalid_image :
  let o := stub Rejected (Resolved (rgb_model f32_0_8)) (Resolved tt) in
  (handle 0 (Some []) o fresh_process).2 = Done prediction_error /\
  predictionsCollection (handle 0 (Some []) o fresh_process).1 = ∅ /\
  live_tensors (handle 0 (Some []) o fresh_process).1 = ∅.
Proof. lazy. split_and!; reflexivity. Qed.

(** Scenario 4: the artifact is absent for the first request and there
    for the second. *)
Example scenario_artifact_appears :
  let o := stub (Resolved white_pixel) (Resolved (rgb_model f32_0_8)) (Resolved tt) in
  let first := handle 0 (Some []) absent_artifact fresh_process in
  let second := handle 1 (Some []) o first.1 in
  first.2 = Done prediction_error /\
  cancerModel first.1 = None /\
  second.2 = Done (predicted (record_of "Cancer" "Segera periksa ke dokter!")) /\
  (model_ref <$> cancerModel second.1) = Some 0%nat.
Proof. lazy. split_and!; reflexivity. Qed.

(** * Further properties *)

(** ** The upload filter and the global error handler *)

Lemma prefix_iff_append (p s : string) :
  String.prefix p s = true <-> exists rest, s = (p +:+ rest)%string.
Proof.
  assert (Hcons : forall a q r, (String a q +:+ r)%string = String a (q +:+ r))
    by reflexivity.
  revert s. induction p as [|a p IH]; intros s.
  - split; [ intros _; by exists s | intros _; by destruct s ].
  - destruct s as [|b s]; cbn.
    + split; [ discriminate | intros [rest Hr]; rewrite Hcons in Hr; discriminate Hr ].
    + destruct (Ascii.ascii_dec a b) as [<- | Hne].
      * rewrite IH. split; intros [rest Hr]; exists rest; rewrite Hcons in *; congruence.
      * split; [ discriminate | intros [rest Hr]; rewrite Hcons in Hr; congruence ].
Qed.

(** X1: the filter accepts exactly the MIME types that begin with
    "image/"; the error it raises for the others is not answered by the
    global error handler, which hands it on, while every error of
    multer's own, whatever its code, is answered with the 413 and the
    size message. *)
Theorem file_type_refusal_is_handed_on (mimetype : string) :
  (fileFilter mimetype = Accept <-> exists rest, mimetype = ("image/" +:+ rest)%string) /\
  (forall err, fileFilter mimetype = Refuse err -> errorHandler err = Next err) /\
  (forall code, errorHandler (MulterError code) = Respond payload_too_large).
Proof.
  split_and!.
  - rewrite <- prefix_iff_append. unfold fileFilter.
    destruct (String.prefix "image/" mimetype); split; congruence.
  - unfold fileFilter. intros err.
    destruct (String.prefix "image/" mimetype); [ discriminate | ].
    intros [= <-]. reflexivity.
  - reflexivity.
Qed.

(** ** The history endpoint *)

Lemma history_entries_spec docs k d :
  {| entry_id := k; entry_history := d |} ∈ history_entries docs <-> docs !! k = Some d.
Proof.
  unfold history_entries. rewrite list_elem_of_fmap. split.
  - intros ([k' d'] & [= -> ->] & Hin). by apply elem_of_map_to_list.
  - intros Hk. exists (k, d). split; [ reflexivity | by apply elem_of_map_to_list ].
Qed.

(** X2: when the read succeeds, the endpoint answers 200 with one entry
    per stored document and no other (each under the key it is stored
    at, no key twice), and leaves the process as it was; when the read
    fails, it answers 500 with the fixed message, logs once and stores
    nothing. *)
Theorem histories_lists_the_collection rid get w :
  match get with
  | Resolved _ =>
      (histories rid get w).1 = w /\
      history_status (histories rid get w).2 = 200%nat /\
      exists data,
        history_json (histories rid get w).2 = HistoriesSuccess data /\
        (forall k d, {| entry_id := k; entry_history := d |} ∈ data
                     <-> predictionsCollection w !! k = Some d) /\
        length data = size (predictionsCollection w) /\
        NoDup (entry_id <$> data)
  | Rejected =>
      (histories rid get w).2
      = {| history_status := 500;
           history_json := HistoriesFail "Error fetching prediction histories" |} /\
      predictionsCollection (histories rid get w).1 = predictionsCollection w /\
      cancerModel (histories rid get w).1 = cancerModel w /\
      live_tensors (histories rid get w).1 = live_tensors w /\
      trace (histories rid get w).1
      = trace w ++ [(rid, ConsoleError "Fetching histories error:")]
  end.
Proof.
  destruct get as [[]|]; cbn.
  - split_and!; [ reflexivity | reflexivity | ].
    eexists. split; [ reflexivity | ]. split_and!.
    + apply history_entries_spec.
    + unfold history_entries. rewrite length_fmap. apply length_map_to_list.
    + unfold history_entries. rewrite <- list_fmap_compose.
      apply (NoDup_fst_map_to_list (predictionsCollection w)).
  - split_and!; reflexivity.
Qed.

(** ** The 200 answer, end to end *)

(** What a 200 answer tells about the run that produced it. *)
Lemma handle_success_inv rid file o w doc :
  (handle rid file o w).2 = Done (predicted doc) ->
  exists buf image resized m output,
    file = Some buf /\
    tf_decodeImage o buf = Resolved image /\
    Tf.resizeBilinear image 224 224 = Some resized /\
    predict m (Tf.expandDims0 (Tf.div resized 255)) = Resolved output /\
    firestore_set o = Resolved tt /\
    (cancerModel w = Some m \/
     (cancerModel w = None /\ storage_exists o = Resolved true /\
      tf_loadGraphModel o = Resolved (predict m) /\ model_ref m = next_model w)) /\
    doc = {| id := uuidv4 o;
             result := result_of (score_of output);
             suggestion := suggestion_of (result_of (score_of output));
             createdAt := date_toISOString o |} /\
    predictionsCollection (handle rid file o w).1
    = <[ id doc := doc ]> (predictionsCollection w) /\
    cancerModel (handle rid file o w).1 = Some m.
Proof.
  open_request w o. destruct file as [buf|]; run_handler; intros Hres;
    try discriminate Hres.
  all: injection Hres as <-.
  all: lazymatch goal with
       | Hp : predict ?m _ = Resolved ?out, Hd : _ _ = Resolved ?img,
         Hr : Tf.resizeBilinear ?img 224 224 = Some ?res |- _ =>
           exists buf, img, res, m, out
       | Hp : ?f (Tf.expandDims0 _) = Resolved ?out, Hd : _ _ = Resolved ?img,
         Hr : Tf.resizeBilinear ?img 224 224 = Some ?res |- _ =>
           exists buf, img, res, {| model_ref := nm; predict := f |}, out
       end.
  all: repeat match goal with u : unit |- _ => destruct u end.
  all: split_and!; try done; try (left; done); try (right; done).
Qed.

(** A 400 answer stores nothing. *)
Lemma failure_keeps_collection rid file o w res :
  (handle rid file o w).2 = Done res -> status res = 400%nat ->
  predictionsCollection (handle rid file o w).1 = predictionsCollection w.
Proof.
  open_request w o. destruct file as [buf|]; run_handler; intros [= <-] Hs;
    first [ reflexivity | discriminate Hs ].
Qed.

(** X3: the record of a 200 answer is the reading of what the model
    answered on the preprocessed image: its label and suggestion are
    [interpret] of the score of the model's output on [prepare] of the
    decoded upload, its identifier and timestamp are the ones generated
    for the request, and the model is the cached one or, on an empty
    slot, the one just loaded. *)
Theorem success_record_is_the_interpreted_prediction rid file o w doc :
  (handle rid file o w).2 = Done (predicted doc) ->
  exists buf image t m output,
    file = Some buf /\
    tf_decodeImage o buf = Resolved image /\
    prepare image = Some t /\
    predict m t = Resolved output /\
    (cancerModel w = Some m \/
     (cancerModel w = None /\ tf_loadGraphModel o = Resolved (predict m))) /\
    cancerModel (handle rid file o w).1 = Some m /\
    doc = {| id := uuidv4 o;
             result := (interpret (score_of output)).1;
             suggestion := (interpret (score_of output)).2;
             createdAt := date_toISOString o |}.
Proof.
  intros Hres.
  destruct (handle_success_inv _ _ _ _ _ Hres)
    as (buf & image & resized & m & output & Hf & Hdec & Hrs & Hp & _ & Hm & Hdoc & _ & Hslot).
  exists buf, image, (Tf.expandDims0 (Tf.div resized 255)), m, output.
  split_and!; try done.
  - unfold prepare. by rewrite Hrs.
  - destruct Hm as [Hm | (Hm & _ & Hl & _)]; [ by left | by right ].
Qed.

(** X4: after a 200 answer the history endpoint lists the returned
    record (under its identifier), whatever else is stored; after a 400
    answer it lists exactly what it listed before. *)
Theorem histories_after_predict rid file o w rid' :
  (forall doc, (handle rid file o w).2 = Done (predicted doc) ->
     exists data,
       history_json (histories rid' (Resolved tt) (handle rid file o w).1).2
       = HistoriesSuccess data /\
       {| entry_id := id doc; entry_history := doc |} ∈ data) /\
  (forall res, (handle rid file o w).2 = Done res -> status res = 400%nat ->
     (histories rid' (Resolved tt) (handle rid file o w).1).2
     = (histories rid' (Resolved tt) w).2).
Proof.
  split.
  - intros doc Hres.
    destruct (handle_success_inv _ _ _ _ _ Hres)
      as (_ & _ & _ & _ & _ & _ & _ & _ & _ & _ & _ & _ & Hcol & _).
    eexists. split; [ reflexivity | ].
    apply history_entries_spec. rewrite Hcol. apply lookup_insert_eq.
  - intros res Hres Hs. unfold histories.
    by rewrite (failure_keeps_collection _ _ _ _ _ Hres Hs).
Qed.

(** X5: a 200 answer stores its record under its identifier and touches
    no other document: the collection grows by one when the identifier
    is new, and a document already stored under it is replaced. *)
Theorem success_inserts_or_overwrites rid file o w doc :
  (handle rid file o w).2 = Done (predicted doc) ->
  let docs := predictionsCollection w in
  let docs' := predictionsCollection (handle rid file o w).1 in
  docs' !! id doc = Some doc /\
  (forall k, k <> id doc -> docs' !! k = docs !! k) /\
  (docs !! id doc = None -> size docs' = S (size docs)) /\
  (is_Some (docs !! id doc) -> size docs' = size docs).
Proof.
  intros Hres docs docs'.
  destruct (handle_success_inv _ _ _ _ _ Hres)
    as (_ & _ & _ & _ & _ & _ & _ & _ & _ & _ & _ & _ & Hcol & _).
  subst docs docs'. rewrite Hcol. split_and!.
  - apply lookup_insert_eq.
  - intros k Hk. by apply lookup_insert_ne.
  - intros Hnone. by apply map_size_insert_None.
  - intros Hsome. by apply map_size_insert_Some.
Qed.

(** ** The answers of the prediction endpoint *)

(** X6: a request that the upload middleware has passed on to the
    handler is answered by it with the 200 or with one of two 400s;
    "No image uploaded" goes to the requests without a file and to no
    other, so every failure inside the handler of a request that
    carries a file gets the one generic message.  The requests the
    middleware refuses never reach the handler: their answers are those
    of [errorHandler]. *)
Theorem answers_are_uniform rid file o w :
  ((handle rid file o w).2 = Done no_image \/
   (handle rid file o w).2 = Done prediction_error \/
   exists doc, (handle rid file o w).2 = Done (predicted doc)) /\
  ((handle rid file o w).2 = Done no_image <-> file = None).
Proof.
  open_request w o. destruct file as [buf|]; run_handler.
  all: split; [ eauto | split; [ intros [=] | intros [=] ] ]; try reflexivity.
Qed.

(** X7: with the slot filled, a request makes no call to the artifact
    store, creates no model object and leaves the slot as it is. *)
Theorem cached_model_is_reused rid file o w m :
  cancerModel w = Some m ->
  exists evs,
    trace (handle rid file o w).1 = trace w ++ evs /\
    Forall (fun e => is_storage_call e = false) evs /\
    cancerModel (handle rid file o w).1 = Some m /\
    next_model (handle rid file o w).1 = next_model w /\
    Forall (fun e => forall r, e.2 = CallPredict r -> r = model_ref m) evs.
Proof.
  open_request w o. cbn. intros ->.
  destruct file as [buf|]; run_handler; flatten_trace.
  all: eexists; (split; [ first [reflexivity | symmetry; apply app_nil_r] | ]).
  all: split_and!; try reflexivity.
  all: repeat first [ apply Forall_nil_2 | apply Forall_cons_2 ];
       try reflexivity; cbn; intros; congruence.
Qed.

(** X8: [tf.loadGraphModel] is called only on an empty slot and only
    after [exists] answered true. *)
Theorem load_only_after_exists rid file o w :
  exists evs,
    trace (handle rid file o w).1 = trace w ++ evs /\
    only_after (eq (rid, CallExists)) (rid, CallLoadGraphModel) evs /\
    ((rid, CallLoadGraphModel) ∈ evs ->
       cancerModel w = None /\ storage_exists o = Resolved true) /\
    ((rid, CallExists) ∈ evs -> cancerModel w = None).
Proof.
  open_request w o. destruct file as [buf|]; run_handler; flatten_trace.
  all: eexists; (split; [ first [reflexivity | symmetry; apply app_nil_r] | ]).
  all: split_and!; [ solve_only_after | | ].
  all: intros Hin; first [ done | exfalso; refute_elem_of Hin ].
Qed.

(** X9: what a request writes with [console.error]: nothing when it is
    answered with the 200 or carries no file; otherwise "Prediction
    error:" once, preceded by "Error loading model:" exactly when the
    failure came out of [loadModel], which logs it and throws it again. *)
Theorem errors_are_logged rid file o w :
  exists evs,
    trace (handle rid file o w).1 = trace w ++ evs /\
    (((exists doc, (handle rid file o w).2 = Done (predicted doc)) \/ file = None) ->
       logged evs = []) /\
    ((handle rid file o w).2 = Done prediction_error -> load_fails o w ->
       logged evs = ["Error loading model:"; "Prediction error:"]%string) /\
    ((handle rid file o w).2 = Done prediction_error -> ~ load_fails o w ->
       logged evs = ["Prediction error:"]%string).
Proof.
  unfold load_fails.
  open_request w o. destruct file as [buf|]; run_handler; flatten_trace.
  all: eexists; (split; [ first [reflexivity | symmetry; apply app_nil_r] | ]).
  all: split; [ intros [[doc [=]] | [=]]; reflexivity | ].
  all: split; intros [=] Hd; cbn in Hd; try reflexivity; exfalso.
  all: lazymatch type of Hd with
       | ~ _ => apply Hd; split; [ reflexivity | ]; first [ by left | by right ]
       | _ /\ _ =>
           destruct Hd as [Hd1 Hd2];
           first [ discriminate Hd1
                 | destruct Hd2 as [Hd2 | Hd2]; [ by apply Hd2 | discriminate Hd2 ] ]
       end.
Qed.

(** X10: the answer depends on the process state through the slot
    alone: two processes with the same [cancerModel] give the same
    answer to the same request, whatever they store and whatever tensors
    they hold. *)
Theorem answer_depends_on_slot_only rid rid' file o w1 w2 :
  cancerModel w1 = cancerModel w2 ->
  (handle rid file o w1).2 = (handle rid' file o w2).2.
Proof.
  destruct w1 as [cm1 col1 lt1 nt1 nm1 tr1], w2 as [cm2 col2 lt2 nt2 nm2 tr2].
  destruct o as [ex ld dec uu dt fs]. cbn. intros <-.
  destruct file as [buf|]; run_handler; reflexivity.
Qed.

(** ** Tensors left behind *)

Lemma elem_of_created_between w w' t :
  t ∈ created_between w w' <-> (next_tensor w <= t < next_tensor w')%nat.
Proof.
  unfold created_between. rewrite elem_of_list_to_set, elem_of_seq. lia.
Qed.

Lemma size_created_between w w' :
  size (created_between w w') = (next_tensor w' - next_tensor w)%nat.
Proof.
  unfold created_between. rewrite size_list_to_set by apply NoDup_seq.
  apply length_seq.
Qed.

Arguments created_between : simpl never.

(** What one request does to the tensor registry. *)
Lemma handle_tensors rid file o w :
  (next_tensor w <= next_tensor (handle rid file o w).1)%nat /\
  (forall res, (handle rid file o w).2 = Done res -> status res = 400%nat ->
     live_tensors (handle rid file o w).1
     = live_tensors w ∪ created_between w (handle rid file o w).1 /\
     exists evs, trace (handle rid file o w).1 = trace w ++ evs /\
                 Forall (fun e => is_dispose e = false) evs) /\
  (tensors_fresh w ->
     forall doc, (handle rid file o w).2 = Done (predicted doc) ->
     live_tensors (handle rid file o w).1
     = live_tensors w ∪ {[ (next_tensor w + 2)%nat ]} /\
     next_tensor (handle rid file o w).1 = (next_tensor w + 5)%nat).
Proof.
  open_request w o. unfold tensors_fresh. cbn [live_tensors next_tensor].
  destruct file as [buf|]; run_handler; flatten_trace.
  all: split; [ lia | ].
  all: split;
    [ intros ? [= <-] Hs; try discriminate Hs;
      (split;
       [ apply set_eq; intros x;
         rewrite !elem_of_union, elem_of_created_between, ?elem_of_singleton;
         cbn [next_tensor]; intuition lia
       | eexists; split; [ first [reflexivity | symmetry; apply app_nil_r] | ];
         repeat first [ apply Forall_nil_2 | apply Forall_cons_2 ]; reflexivity ])
    | intros Hfresh ? [=]; (split; [ | cbn [next_tensor]; lia ]);
      apply set_eq; intros x; specialize (Hfresh x);
      rewrite !elem_of_difference, !elem_of_union, !elem_of_singleton; intuition lia ].
Qed.

(** The answers a request can get. *)
Lemma handle_answer_cases rid file o w :
  (handle rid file o w).2 = Done no_image \/
  (handle rid file o w).2 = Done prediction_error \/
  exists doc, (handle rid file o w).2 = Done (predicted doc).
Proof.
  open_request w o. destruct file as [buf|]; run_handler; eauto.
Qed.

Lemma handle_tensors_fresh rid file o w :
  tensors_fresh w -> tensors_fresh (handle rid file o w).1.
Proof.
  intros Hfresh.
  destruct (handle_tensors rid file o w) as (Hnt & Hfail & Hok).
  destruct (handle_answer_cases rid file o w) as [Hk | [Hk | [doc Hk]]].
  - destruct (Hfail _ Hk eq_refl) as [Hlive _]. intros t. rewrite Hlive.
    rewrite elem_of_union, elem_of_created_between.
    intros [Ht | Ht]; [ apply Hfresh in Ht | ]; lia.
  - destruct (Hfail _ Hk eq_refl) as [Hlive _]. intros t. rewrite Hlive.
    rewrite elem_of_union, elem_of_created_between.
    intros [Ht | Ht]; [ apply Hfresh in Ht | ]; lia.
  - destruct (Hok Hfresh _ Hk) as [Hlive Hnext]. intros t. rewrite Hlive, Hnext.
    rewrite elem_of_union, elem_of_singleton.
    intros [Ht | ->]; [ apply Hfresh in Ht | ]; lia.
Qed.

Lemma size_live_after rid file o w :
  tensors_fresh w ->
  size (live_tensors (handle rid file o w).1)
  = (size (live_tensors w)
     + if is_success (handle rid file o w).2 then 1
       else next_tensor (handle rid file o w).1 - next_tensor w)%nat.
Proof.
  intros Hfresh.
  destruct (handle_tensors rid file o w) as (Hnt & Hfail & Hok).
  assert (Hfailure : forall res, (handle rid file o w).2 = Done res ->
            status res = 400%nat ->
            size (live_tensors (handle rid file o w).1)
            = (size (live_tensors w)
               + (next_tensor (handle rid file o w).1 - next_tensor w))%nat).
  { intros res Hk Hs. destruct (Hfail _ Hk Hs) as [Hlive _]. rewrite Hlive.
    rewrite size_union, size_created_between; [ reflexivity | ].
    intros t Ht Hc. apply elem_of_created_between in Hc. apply Hfresh in Ht. lia. }
  destruct (handle_answer_cases rid file o w) as [Hk | [Hk | [doc Hk]]].
  - rewrite Hk. cbn [is_success status no_image Nat.eqb]. by eapply Hfailure.
  - rewrite Hk. cbn [is_success status prediction_error Nat.eqb]. by eapply Hfailure.
  - rewrite Hk. cbn [is_success status predicted Nat.eqb].
    destruct (Hok Hfresh _ Hk) as [Hlive _]. rewrite Hlive.
    rewrite size_union, size_singleton; [ reflexivity | ].
    intros t Ht Hc. apply elem_of_singleton in Hc. apply Hfresh in Ht. lia.
Qed.

(** X11: a request answered with a 400 disposes of nothing: every tensor
    it created is still registered when it returns, next to all that
    were registered before. *)
Theorem failure_disposes_nothing rid file o w res :
  (handle rid file o w).2 = Done res -> status res = 400%nat ->
  live_tensors (handle rid file o w).1
  = live_tensors w ∪ created_between w (handle rid file o w).1 /\
  (exists evs, trace (handle rid file o w).1 = trace w ++ evs /\
               Forall (fun e => is_dispose e = false) evs) /\
  (tensors_fresh w ->
     size (live_tensors (handle rid file o w).1)
     = (size (live_tensors w)
        + (next_tensor (handle rid file o w).1 - next_tensor w))%nat).
Proof.
  intros Hk Hs.
  destruct (handle_tensors rid file o w) as (_ & Hfail & _).
  destruct (Hfail _ Hk Hs) as [Hlive Hevs].
  split_and!; [ exact Hlive | exact Hevs | ].
  intros Hfresh. rewrite (size_live_after _ _ _ _ Hfresh), Hk.
  destruct res as [st bd]. cbn in Hs. subst st. reflexivity.
Qed.

Lemma serve_tensors reqs : forall rid w,
  tensors_fresh w ->
  tensors_fresh (serve rid reqs w).1 /\
  (next_tensor w <= next_tensor (serve rid reqs w).1)%nat /\
  (size (live_tensors w) + successes (serve rid reqs w).2
   <= size (live_tensors (serve rid reqs w).1))%nat.
Proof.
  induction reqs as [|r reqs IH]; intros rid w Hfresh.
  - cbn. split_and!; [ exact Hfresh | lia | unfold successes; cbn; lia ].
  - cbn [serve].
    pose proof (handle_tensors_fresh rid r.1 r.2 w Hfresh) as Hfresh'.
    pose proof (size_live_after rid r.1 r.2 w Hfresh) as Hsize.
    destruct (handle_tensors rid r.1 r.2 w) as (Hnt & _).
    destruct (handle rid r.1 r.2 w) as [w' k]. cbn [fst snd] in *.
    destruct (IH (S rid) w' Hfresh') as (IH1 & IH2 & IH3).
    destruct (serve (S rid) reqs w') as [w'' ks]. cbn [fst snd] in *.
    split_and!; [ exact IH1 | lia | ].
    unfold successes in *. rewrite filter_cons.
    destruct (is_success k); cbn; case_decide; try done; cbn; lia.
Qed.

(** X12: starting from a fresh process and serving any requests one
    after the other, the tensors registered at the end are at least as
    many as the 200 answers given: each successful prediction leaves a
    tensor behind for good. *)
Theorem tensors_accumulate reqs :
  (successes (serve 0 reqs fresh_process).2
   <= size (live_tensors (serve 0 reqs fresh_process).1))%nat.
Proof.
  destruct (serve_tensors reqs 0%nat fresh_process) as (_ & _ & H).
  - intros t Ht. apply elem_of_empty in Ht. done.
  - cbn [fresh_process live_tensors] in H. rewrite size_empty in H. exact H.
Qed.

(** ** Invariants under every interleaving *)

Lemma run_schedule_invariant (P : process -> Prop) :
  (forall rid file o at_ w, P w -> P (resume rid file o at_ w).1) ->
  forall sched s, P s.1 -> P (run_schedule sched s).1.
Proof.
  intros Hstep sched. induction sched as [|i sched IH]; intros s Hs; [ exact Hs | ].
  change (run_schedule (i :: sched) s) with (run_schedule sched (schedule_step s i)).
  apply IH. unfold schedule_step. destruct (s.2 !! i) as [t|]; [ | exact Hs ].
  pose proof (Hstep i (task_file t) (task_outside t) (task_at t) s.1 Hs) as H.
  destruct (resume i (task_file t) (task_outside t) (task_at t) s.1). exact H.
Qed.

Lemma keyed_by_id_insert docs doc :
  keyed_by_id docs -> keyed_by_id (<[ id doc := doc ]> docs).
Proof.
  intros Hk k d. destruct (decide (k = id doc)) as [-> | Hne].
  - rewrite lookup_insert_eq. by intros [= <-].
  - rewrite lookup_insert_ne by done. apply Hk.
Qed.

Lemma resume_keyed_by_id rid file o at_ w :
  keyed_by_id (predictionsCollection w) ->
  keyed_by_id (predictionsCollection (resume rid file o at_ w).1).
Proof.
  intros Hw. open_request w o. cbn in Hw.
  destruct at_, file as [buf|]; run_handler; try exact Hw.
  all: by apply keyed_by_id_insert.
Qed.

(** X13: when every document of the collection is stored under its
    own [id] to begin with, then whatever requests are in flight and
    however their segments interleave, every entry the history endpoint
    lists carries as [id] the [id] field of its own record. *)
Theorem history_ids_match_records w tasks sched rid get :
  keyed_by_id (predictionsCollection w) ->
  match history_json (histories rid get (run_schedule sched (w, tasks)).1).2 with
  | HistoriesSuccess data => Forall (fun e => entry_id e = id (entry_history e)) data
  | HistoriesFail _ => get = Rejected
  end.
Proof.
  intros Hw.
  assert (Hk : keyed_by_id (predictionsCollection (run_schedule sched (w, tasks)).1)).
  { apply (run_schedule_invariant (fun w => keyed_by_id (predictionsCollection w))).
    - intros. by apply resume_keyed_by_id.
    - exact Hw. }
  destruct get as [[]|]; cbn; [ | reflexivity ].
  apply Forall_forall. intros [k d] He. apply history_entries_spec in He.
  symmetry. by apply Hk.
Qed.

(** *** At most one inference and one write per request *)

Lemma calls_of_app sel i l1 l2 :
  calls_of sel i (l1 ++ l2) = (calls_of sel i l1 + calls_of sel i l2)%nat.
Proof. unfold calls_of. by rewrite filter_app, length_app. Qed.

Lemma calls_of_tagged sel rid i evs :
  Forall (fun e => e.1 = rid) evs ->
  calls_of sel i evs
  = if decide (i = rid) then length (filter (fun e => sel e = true) evs) else 0%nat.
Proof.
  unfold calls_of. induction 1 as [|e evs He _ IH].
  - by destruct (decide (i = rid)).
  - rewrite !filter_cons. destruct (decide (i = rid)) as [-> | Hne].
    + destruct (decide (sel e = true)) as [Hs | Hs].
      * rewrite decide_True by done. cbn. by rewrite IH.
      * rewrite decide_False by tauto. exact IH.
    + rewrite decide_False by (intros [? _]; congruence). exact IH.
Qed.

Lemma schedule_step_at_most_once sel early s i :
  emits_once sel early ->
  at_most_once sel early s -> at_most_once sel early (schedule_step s i).
Proof.
  intros Hstep Hs. unfold schedule_step.
  destruct (s.2 !! i) as [t|] eqn:Hi; [ | exact Hs ].
  destruct (Hstep i (task_file t) (task_outside t) (task_at t) s.1)
    as (evs & Htr & Htag & Hlen & Hlate & Hearly).
  destruct (resume i (task_file t) (task_outside t) (task_at t) s.1) as [w' k].
  cbn [fst snd] in *. intros j. cbn [fst snd].
  rewrite Htr, calls_of_app.
  rewrite (calls_of_tagged sel i j evs Htag).
  destruct (Hs j) as [Hle Hj]. destruct (decide (j = i)) as [-> | Hne].
  - rewrite Hi in Hj. rewrite list_lookup_insert_eq by (by eapply lookup_lt_Some).
    cbn [task_at]. destruct (early (task_at t)) eqn:He.
    + rewrite Hj by done. split; [ lia | ]. intros Hk. by rewrite Hearly.
    + destruct (Hlate eq_refl) as [-> Hk]. cbn. split; [ lia | ].
      congruence.
  - rewrite list_lookup_insert_ne by done. rewrite Nat.add_0_r. by split.
Qed.

Lemma run_schedule_at_most_once sel early reqs sched :
  emits_once sel early ->
  at_most_once sel early (run_schedule sched (fresh_process, spawn reqs)).
Proof.
  intros Hstep.
  assert (H0 : at_most_once sel early (fresh_process, spawn reqs)).
  { intros i. cbn. split; [ unfold calls_of; cbn; lia | ].
    by destruct (spawn reqs !! i). }
  revert H0. generalize (fresh_process, spawn reqs).
  induction sched as [|i sched IH]; intros s Hs; [ exact Hs | ].
  change (run_schedule (i :: sched) s) with (run_schedule sched (schedule_step s i)).
  by apply IH, schedule_step_at_most_once.
Qed.

Ltac solve_emits_once :=
  intros rid file o at_ w; open_request w o;
  destruct at_, file; run_handler; flatten_trace;
  (eexists; (split; [ first [reflexivity | symmetry; apply app_nil_r] | ]));
  (split; [ repeat constructor | ]);
  (split; [ cbv; lia | ]);
  (split; [ intros [=]; split; reflexivity | intros [=]; reflexivity ]).

Lemma predict_emitted_once : emits_once is_predict before_predict.
Proof. unfold emits_once. solve_emits_once. Qed.

Lemma set_emitted_once : emits_once is_set before_set.
Proof. unfold emits_once. solve_emits_once. Qed.

(** X14: under every interleaving, a request has called [predict] at
    most once and attempted the Firestore write at most once, and a
    request that has not got as far has not made the call at all. *)
Theorem one_inference_and_one_write_per_request reqs sched i :
  let s := run_schedule sched (fresh_process, spawn reqs) in
  (calls_of is_predict i (trace s.1) <= 1)%nat /\
  (calls_of is_set i (trace s.1) <= 1)%nat /\
  match s.2 !! i with
  | Some t =>
      (before_predict (task_at t) = true ->
         calls_of is_predict i (trace s.1) = 0%nat) /\
      (before_set (task_at t) = true -> calls_of is_set i (trace s.1) = 0%nat)
  | None =>
      calls_of is_predict i (trace s.1) = 0%nat /\
      calls_of is_set i (trace s.1) = 0%nat
  end.
Proof.
  intros s.
  destruct (run_schedule_at_most_once is_predict before_predict reqs sched
              predict_emitted_once i) as [Hp1 Hp2].
  destruct (run_schedule_at_most_once is_set before_set reqs sched
              set_emitted_once i) as [Hs1 Hs2].
  fold s in Hp1, Hp2, Hs1, Hs2.
  split_and!; [ exact Hp1 | exact Hs1 | ].
  destruct (s.2 !! i); by split.
Qed.

(** ** The unguarded slot under every schedule (lines 37-53 and 55-70) *)

(** What one segment does to the slot, and which model its [predict]
    is called on: the slot changes only when the [await] of line 48
    returns a model, to that model, and [predict] is called on the
    model the slot holds at the end of the segment. *)
Lemma resume_slot_and_predicts rid file o at_ w :
  (cancerModel (resume rid file o at_ w).1 = cancerModel w \/
   exists m, load_completed rid (Task file o at_) w = Some m /\
             cancerModel (resume rid file o at_ w).1 = Some m) /\
  exists evs,
    trace (resume rid file o at_ w).1 = trace w ++ evs /\
    Forall (fun e => forall r, e.2 = CallPredict r ->
              exists m, cancerModel (resume rid file o at_ w).1 = Some m /\
                        model_ref m = r) evs.
Proof.
  unfold load_completed. open_request w o.
  destruct at_, file as [buf|]; run_handler; flatten_trace.
  all: split;
    [ first [ left; reflexivity | right; eexists; split; reflexivity ]
    | eexists; split; [ first [reflexivity | symmetry; apply app_nil_r] | ];
      repeat first [ apply Forall_nil_2 | apply Forall_cons_2 ];
      intros r Hr; first [ discriminate Hr | injection Hr as <-; eexists; split; reflexivity ] ].
Qed.

Lemma predicts_loaded_mono L L' e :
  (forall m, m ∈ L -> m ∈ L') -> predicts_loaded L e -> predicts_loaded L' e.
Proof. intros HL He r Hr. destruct (He r Hr) as (m & Hm & Href). eauto. Qed.

Lemma resume_models_loaded L rid file o at_ w :
  models_loaded L w ->
  models_loaded (L ++ option_list (load_completed rid (Task file o at_) w))
    (resume rid file o at_ w).1.
Proof.
  intros [Hslot Htr].
  destruct (resume_slot_and_predicts rid file o at_ w) as (Hcm & evs & Hevs & Hpred).
  assert (Hslot' : forall m, cancerModel (resume rid file o at_ w).1 = Some m ->
                     m ∈ L ++ option_list (load_completed rid (Task file o at_) w)).
  { intros m Hm. apply elem_of_app. destruct Hcm as [Hcm | (m' & Hload & Hcm)].
    - left. apply Hslot. by rewrite <- Hcm.
    - right. rewrite Hload. rewrite Hcm in Hm. injection Hm as <-.
      apply list_elem_of_here. }
  split; [ exact Hslot' | ].
  rewrite Hevs. apply Forall_app. split.
  - eapply Forall_impl; [ exact Htr | ]. intros e. apply predicts_loaded_mono.
    intros m Hm. apply elem_of_app. by left.
  - eapply Forall_impl; [ exact Hpred | ]. intros e He r Hr.
    destruct (He r Hr) as (m & Hm & Href). exists m. split; [ by apply Hslot' | exact Href ].
Qed.

Lemma run_schedule_models_loaded sched : forall s L,
  models_loaded L s.1 ->
  models_loaded (L ++ returned_models sched s) (run_schedule sched s).1.
Proof.
  induction sched as [|i sched IH]; intros s L Hs.
  - cbn. by rewrite app_nil_r.
  - change (run_schedule (i :: sched) s) with (run_schedule sched (schedule_step s i)).
    cbn [returned_models]. rewrite app_assoc. apply IH.
    unfold schedule_step. destruct (s.2 !! i) as [t|]; [ | by rewrite app_nil_r ].
    pose proof (resume_models_loaded L i (task_file t) (task_outside t) (task_at t) s.1 Hs)
      as H.
    destruct t as [f o k]. cbn [task_file task_outside task_at] in *.
    destruct (resume i f o k s.1). exact H.
Qed.

Lemma fresh_process_models_loaded : models_loaded [] fresh_process.
Proof. split; [ discriminate | constructor ]. Qed.

Lemma observed_models_loaded L w i r :
  models_loaded L w -> r ∈ observed_models i w ->
  exists m, m ∈ L /\ model_ref m = r.
Proof.
  intros [_ Htr]. unfold observed_models. rewrite list_elem_of_omap.
  intros ([j e] & Hin & Hm).
  rewrite Forall_forall in Htr. specialize (Htr _ Hin).
  destruct e; try discriminate Hm.
  destruct (decide (j = i)); [ | discriminate Hm ]. injection Hm as <-.
  by apply Htr.
Qed.

(** A returned model object answers as the [tf.loadGraphModel] of one of
    the requests resolved. *)
Lemma schedule_step_outsides s i :
  task_outside <$> (schedule_step s i).2 = task_outside <$> s.2.
Proof.
  unfold schedule_step. destruct (s.2 !! i) as [t|] eqn:Hi; [ | reflexivity ].
  destruct (resume i (task_file t) (task_outside t) (task_at t) s.1) as [w' k].
  cbn [snd]. rewrite list_fmap_insert. cbn [task_outside].
  apply list_insert_id. by rewrite list_lookup_fmap, Hi.
Qed.

Lemma returned_models_resolved sched : forall s m,
  m ∈ returned_models sched s ->
  exists o, o ∈ task_outside <$> s.2 /\ tf_loadGraphModel o = Resolved (predict m).
Proof.
  induction sched as [|i sched IH]; intros s m Hm.
  - by apply elem_of_nil in Hm.
  - cbn [returned_models] in Hm. apply elem_of_app in Hm as [Hm | Hm].
    + destruct (s.2 !! i) as [t|] eqn:Hi; [ | by apply elem_of_nil in Hm ].
      exists (task_outside t). split.
      * apply list_elem_of_fmap. exists t. split; [ reflexivity | ].
        by eapply list_elem_of_lookup_2.
      * unfold load_completed in Hm. destruct (task_at t); try by apply elem_of_nil in Hm.
        unfold loadModel_loaded, loadModel_catch in Hm. unfold_exec.
        destruct (tf_loadGraphModel (task_outside t)) as [f|];
          cbn in Hm; [ | by apply elem_of_nil in Hm ].
        apply list_elem_of_singleton in Hm. by subst m.
    + destruct (IH _ _ Hm) as (o & Ho & Hload). exists o.
      split; [ | exact Hload ]. by rewrite schedule_step_outsides in Ho.
Qed.

Lemma load_emitted_once : emits_once is_load before_load.
Proof. unfold emits_once. solve_emits_once. Qed.

(** C9, as the code has it: under every schedule of a burst of requests,
    the slot and every [predict] hold only model objects that a
    completed [tf.loadGraphModel] returned, each answering as the load
    of one of the requests resolved; every request calls
    [tf.loadGraphModel] at most once; once the slot is filled it stays
    filled and the number of requests inside [loadModel] does not grow;
    and when the requests all carry a file and are resumed one after
    the other, every one of them is inside [loadModel] at the same
    time. *)
Theorem unguarded_slot_holds_loaded_models reqs sched :
  let s0 := (fresh_process, spawn reqs) in
  let s := run_schedule sched s0 in
  (forall m, cancerModel s.1 = Some m -> loaded_model sched s0 m) /\
  (forall i r, r ∈ observed_models i s.1 ->
     exists m, loaded_model sched s0 m /\ model_ref m = r) /\
  (forall m, loaded_model sched s0 m ->
     exists q, q ∈ reqs /\ tf_loadGraphModel q.2 = Resolved (predict m)) /\
  (forall i, (calls_of is_load i (trace s.1) <= 1)%nat) /\
  (forall i, is_Some (cancerModel s.1) ->
     is_Some (cancerModel (schedule_step s i).1) /\
     (loads_in_flight (schedule_step s i) <= loads_in_flight s)%nat) /\
  (Forall has_file reqs ->
     loads_in_flight (run_schedule (seq 0 (length reqs)) s0) = length reqs).
Proof.
  intros s0 s.
  assert (Hs : models_loaded (returned_models sched s0) s.1).
  { apply (run_schedule_models_loaded sched s0 []), fresh_process_models_loaded. }
  split_and!.
  - apply Hs.
  - intros i r. by apply observed_models_loaded.
  - intros m Hm. destruct (returned_models_resolved _ _ _ Hm) as (o & Ho & Hload).
    cbn [s0 snd] in Ho. unfold spawn in Ho.
    change (List.map ?f ?l) with (f <$> l) in Ho.
    rewrite <- list_fmap_compose in Ho.
    apply list_elem_of_fmap in Ho as (q & -> & Hq).
    exists q. split; [ exact Hq | exact Hload ].
  - intros i. apply (run_schedule_at_most_once is_load before_load reqs sched load_emitted_once i).
  - intros i. apply schedule_step_filled_slot.
  - apply burst_loads_in_flight.
Qed.

(** ** Where the label changes, in terms of the model's output *)

(** Rounding a 53- or 54-bit mantissa to a Number, against 50: what is
    below 50 is not rounded above it, and what is above 50 by two units
    of the mantissa is rounded to more than 50. *)
Lemma round_vs_50 (M E : Z) (lx : location) :
  4503599627370496 <= M < 18014398509481984 -> -1000 <= E < -2 ->
  (M < 50 * 2 ^ (- E) ->
     JS.gt (binary_round_aux 53 1024 false M E lx) JS.num_50 = false) /\
  (50 * 2 ^ (- E) + 2 <= M ->
     JS.gt (binary_round_aux 53 1024 false M E lx) JS.num_50 = true).
Proof.
  intros HM HE.
  assert (Hpow : forall j, 0 <= j -> 0 < 2 ^ j) by (intros; apply Z.pow_pos_nonneg; lia).
  unfold binary_round_aux, shr_fexp.
  set (k1 := fexp 53 1024 (Zdigits2 M + E) - E).
  destruct (shr_spec (shr_record_of_loc M lx) E k1) as [He1 Hm1];
    [ rewrite shr_record_of_loc_m; lia | ].
  rewrite shr_record_of_loc_m in Hm1.
  destruct (shr (shr_record_of_loc M lx) E k1) as [mrs1 e1].
  cbn [fst snd] in He1, Hm1.
  assert (Hfl : 4503599627370496 <= shr_m mrs1 < 9007199254740992 /\
                (e1 = E /\ shr_m mrs1 = M \/
                 e1 = E + 1 /\ 2 * shr_m mrs1 <= M <= 2 * shr_m mrs1 + 1)).
  { destruct (Zdigits2_53_54 M HM) as [[HD Hlt] | [HD Hge]].
    - assert (k1 = 0) as Hk by (unfold k1, fexp, emin; lia).
      rewrite Hk in *. change (Z.max 0 0) with 0 in *.
      rewrite Z.pow_0_r, Z.div_1_r in Hm1. clearbody k1. lia.
    - assert (k1 = 1) as Hk by (unfold k1, fexp, emin; lia).
      rewrite Hk in *. change (Z.max 1 0) with 1 in *.
      change (2 ^ 1) with 2 in Hm1. clearbody k1.
      pose proof (Z.div_mod M 2 ltac:(lia)). pose proof (Z.mod_pos_bound M 2 ltac:(lia)).
      split; [ lia | right; lia ]. }
  clear He1 Hm1. clearbody k1. clear k1.
  destruct Hfl as [Hfl Hsh1].
  pose proof (round_nearest_even_bounds (shr_m mrs1) (loc_of_shr_record mrs1)) as Hrne.
  set (m1 := round_nearest_even (shr_m mrs1) (loc_of_shr_record mrs1)) in *.
  cbn [shr_record_of_loc].
  set (k2 := fexp 53 1024 (Zdigits2 m1 + e1) - e1).
  destruct (shr_spec {| shr_m := m1; shr_r := false; shr_s := false |} e1 k2)
    as [He2 Hm2]; [ cbn; lia | ].
  destruct (shr {| shr_m := m1; shr_r := false; shr_s := false |} e1 k2)
    as [mrs2 e2]. cbn [fst snd shr_m] in He2, Hm2.
  assert (Hm2b : 4503599627370496 <= shr_m mrs2 < 9007199254740992 /\
                 (e2 = e1 /\ shr_m mrs2 = m1 \/ e2 = e1 + 1 /\ 2 * shr_m mrs2 = m1)).
  { destruct (Zdigits2_53_54 m1 ltac:(lia)) as [[HD Hlt] | [HD Hge]].
    - assert (k2 = 0) as Hk by (unfold k2, fexp, emin; lia).
      rewrite Hk in *. change (Z.max 0 0) with 0 in *.
      rewrite Z.pow_0_r, Z.div_1_r in Hm2. clearbody k2. lia.
    - assert (k2 = 1) as Hk by (unfold k2, fexp, emin; lia).
      rewrite Hk in *. change (Z.max 1 0) with 1 in *.
      change (2 ^ 1) with 2 in Hm2. clearbody k2.
      pose proof (Z.div_mod m1 2 ltac:(lia)). pose proof (Z.mod_pos_bound m1 2 ltac:(lia)).
      split; [ lia | right; lia ]. }
  clear He2 Hm2. clearbody k2. clear k2.
  destruct Hm2b as [Hm2b Hsh2].
  destruct (shr_m mrs2) as [|m|m]; try lia.
  assert (Hle : (e2 <=? 1024 - 53) = true) by (apply Z.leb_le; lia).
  rewrite Hle.
  (* the exponents, as powers of two *)
  assert (He2 : e2 < 0) by lia.
  pose proof (Hpow (- e2) ltac:(lia)) as HX.
  assert (HE1 : 2 ^ (- e1) = 2 ^ (- e2) * (if decide (e2 = e1) then 1 else 2)).
  { destruct (decide (e2 = e1)) as [-> | Hne]; [ lia | ].
    replace (- e1) with (- e2 + 1) by lia. rewrite Z.pow_add_r by lia. lia. }
  assert (HE0 : 2 ^ (- E) = 2 ^ (- e1) * (if decide (e1 = E) then 1 else 2)).
  { destruct (decide (e1 = E)) as [<- | Hne]; [ lia | ].
    replace (- E) with (- e1 + 1) by lia. rewrite Z.pow_add_r by lia. lia. }
  unfold JS.gt, SFltb, SFcompare, JS.num_50.
  change (Pos.compare_cont Eq 7036874417766400 m) with (Pos.compare 7036874417766400 m).
  rewrite Pos2Z.inj_compare.
  split; intros Hcmp.
  - (* below 50 *)
    assert (Hm : Zpos m <= 50 * 2 ^ (- e2)).
    { rewrite HE0, HE1 in Hcmp. set (X := 2 ^ (- e2)) in *.
      destruct (decide (e2 = e1)), (decide (e1 = E)); cbv beta iota in Hcmp; lia. }
    destruct (Z.compare_spec (-47) e2) as [<- | Hlt | Hgt]; [ | exfalso | reflexivity ].
    + change (2 ^ (- -47)) with 140737488355328 in Hm.
      destruct (Z.compare_spec 7036874417766400 (Zpos m)); try reflexivity. lia.
    + assert (2 ^ (- e2) <= 2 ^ 46) by (apply Z.pow_le_mono_r; lia).
      change (2 ^ 46) with 70368744177664 in *. lia.
  - (* above 50 *)
    assert (Hm : 50 * 2 ^ (- e2) < Zpos m).
    { rewrite HE0, HE1 in Hcmp. set (X := 2 ^ (- e2)) in *.
      destruct (decide (e2 = e1)), (decide (e1 = E)); cbv beta iota in Hcmp; lia. }
    destruct (Z.compare_spec (-47) e2) as [<- | Hlt | Hgt]; [ | reflexivity | exfalso ].
    + change (2 ^ (- -47)) with 140737488355328 in Hm.
      destruct (Z.compare_spec 7036874417766400 (Zpos m)); try reflexivity; lia.
    + assert (2 ^ 48 <= 2 ^ (- e2)) by (apply Z.pow_le_mono_r; lia).
      change (2 ^ 48) with 281474976710656 in *. lia.
Qed.

(** [parseFloat] of a decimal of at most 100.00 exceeds 50 exactly when
    the decimal does. *)
Lemma parseFloat_gt_50 n :
  0 <= n <= 10000 ->
  JS.gt (JS.parseFloat (JS.TxtDecimal false n 2)) JS.num_50 = (5000 <? n).
Proof.
  intros Hn. destruct n as [|p|p]; [ reflexivity | | lia ].
  destruct (decide (Zpos p = 5000)) as [Hp | Hp].
  { injection Hp as ->. vm_compute. reflexivity. }
  unfold JS.parseFloat, JS.div, SFdiv, SFdiv_core_binary, JS.prec, JS.emax.
  change (Z.to_pos (10 ^ 2)) with 100%positive.
  change (Zdigits2 100) with 7. cbn [xorb].
  assert (Hd : Zdigits2 (Zpos p) <= 14).
  { apply Zdigits2_upper; [ | lia ]. change (2 ^ 14) with 16384. lia. }
  assert (Hd0 : 0 < Zdigits2 (Zpos p)) by (cbn; lia).
  assert (Hlo : 2 ^ (Zdigits2 (Zpos p) - 1) <= Zpos p) by apply digits2_lower.
  assert (Hhi : Zpos p < 2 ^ Zdigits2 (Zpos p)) by apply digits2_gt.
  set (d := Zdigits2 (Zpos p)) in *.
  replace (Z.min (fexp 53 1024 (d + 0 - (7 + 0))) (0 - 0)) with (d - 60)
    by (unfold fexp, emin; lia).
  replace (0 - 0 - (d - 60)) with (60 - d) by lia.
  destruct (60 - d) as [|sh|sh] eqn:Hsh; try lia.
  rewrite Z.shiftl_mul_pow2 by lia.
  pose proof (Z_div_mod (Zpos p * 2 ^ Zpos sh) 100 ltac:(lia)) as Hdiv.
  destruct (Z.div_eucl (Zpos p * 2 ^ Zpos sh) 100) as [q r].
  destruct Hdiv as [Hq Hr].
  assert (H59 : 2 ^ (d - 1) * 2 ^ Zpos sh = 576460752303423488).
  { rewrite <- Z.pow_add_r by lia. replace (d - 1 + Zpos sh) with 59 by lia. reflexivity. }
  assert (H60 : 2 ^ d * 2 ^ Zpos sh = 1152921504606846976).
  { rewrite <- Z.pow_add_r by lia. replace (d + Zpos sh) with 60 by lia. reflexivity. }
  assert (H46 : 2 ^ 46 <= 2 ^ Zpos sh) by (apply Z.pow_le_mono_r; lia).
  change (2 ^ 46) with 70368744177664 in H46.
  set (P := 2 ^ Zpos sh) in *.
  assert (Hlo' : 2 ^ (d - 1) * P <= Zpos p * P) by (apply Z.mul_le_mono_nonneg_r; lia).
  assert (Hhi' : Zpos p * P < 2 ^ d * P) by (apply Z.mul_lt_mono_pos_r; lia).
  destruct (round_vs_50 q (d - 60) (new_location 100 r)) as [Hbelow Habove];
    [ lia | lia | ].
  replace (- (d - 60)) with (Zpos sh) in * by lia. fold P in Hbelow, Habove.
  destruct (Z.ltb_spec 5000 (Zpos p)) as [Hgt | Hle].
  - apply Habove.
    assert (5001 * P <= Zpos p * P) by (apply Z.mul_le_mono_nonneg_r; lia). lia.
  - apply Hbelow.
    assert (Zpos p * P <= 4999 * P) by (apply Z.mul_le_mono_nonneg_r; lia). lia.
Qed.

(** X15: for a model output in [0, 1], the label is decided on the
    percentage as it is printed with two decimals: it is Cancer exactly
    when that text reads more than 50.00, which is when the output times
    100 is at least 50.005.  An output just above one half is therefore
    reported as Non-cancer. *)
Theorem label_follows_the_printed_percentage (output : list JS.number) :
  valid_binary 53 1024 (first_scalar output) = true ->
  JS.le JS.num_0 (first_scalar output) = true ->
  JS.le (first_scalar output) JS.num_1 = true ->
  exists n,
    predictionValue_of output = JS.TxtDecimal false n 2 /\
    0 <= n <= 10000 /\
    ((interpret (score_of output)).1 = "Cancer"%string <-> 5000 < n) /\
    (5000 < n <->
     (50005 # 1000 <= JS.to_Q (JS.mul (first_scalar output) JS.num_100))%Q).
Proof.
  intros Hvalid H0 H1. unfold score_of, predictionValue_of.
  assert (Hlabel : forall n, 0 <= n <= 10000 ->
    (interpret (JS.parseFloat (JS.TxtDecimal false n 2))).1 = "Cancer"%string
    <-> 5000 < n).
  { intros n Hn. unfold interpret, result_of. cbn [fst].
    rewrite (parseFloat_gt_50 n Hn).
    destruct (Z.ltb_spec 5000 n); split; try done; lia. }
  destruct (mul_100_of_probability _ Hvalid H0 H1) as [[s ->] | (m & e & -> & He & Hm)].
  - exists 0. split_and!; [ reflexivity | lia | lia | by apply Hlabel | ].
    split; [ lia | ]. cbn. intros H. exfalso. revert H. apply Qlt_not_le. reflexivity.
  - destruct (toFixed_below_100 m e He Hm) as (n & Htext & Hn).
    exists n. rewrite Htext. split_and!; [ reflexivity | lia | lia | by apply Hlabel | ].
    unfold JS.toFixed in Htext.
    destruct (JS.dyadic_geb m e (10 ^ 21)); [ discriminate Htext | ].
    injection Htext as <-.
    pose proof (nearest_scaled_is_nearest 2 m e ltac:(lia)) as [Hnlo Hnhi].
    cbv zeta in Hnlo, Hnhi.
    set (x := JS.to_Q (S754_finite false m e)) in *.
    set (k := JS.nearest_scaled 2 m e) in *.
    change (inject_Z (10 ^ 2)) with 100%Q in Hnlo, Hnhi.
    split.
    + intros Hk. assert (Hq : (inject_Z 5001 <= inject_Z k)%Q) by (rewrite <- Zle_Qle; lia).
      change (inject_Z 5001) with 5001%Q in Hq. lra.
    + intros Hx. assert (Hq : (inject_Z 5000 < inject_Z k)%Q).
      { change (inject_Z 5000) with 5000%Q. lra. }
      by rewrite <- Zlt_Qlt in Hq.
Qed.

Lemma label_follows_the_printed_percentage_witness :
  exists n,
    predictionValue_of [f32_0_8] = JS.TxtDecimal false n 2 /\
    0 <= n <= 10000 /\
    ((interpret (score_of [f32_0_8])).1 = "Cancer"%string <-> 5000 < n) /\
    (5000 < n <->
     (50005 # 1000 <= JS.to_Q (JS.mul (first_scalar [f32_0_8]) JS.num_100))%Q).
Proof.
  apply (label_follows_the_printed_percentage [f32_0_8]); vm_compute; reflexivity.
Defined.

(** X16: of the five tensors a request answered with the 200 creates,
    one is still registered when it returns: the third, the result of
    [div], which the handler never names. *)
Theorem success_leaves_the_div_tensor rid file o w doc :
  tensors_fresh w ->
  (handle rid file o w).2 = Done (predicted doc) ->
  next_tensor (handle rid file o w).1 = (next_tensor w + 5)%nat /\
  live_tensors (handle rid file o w).1
  = live_tensors w ∪ {[ (next_tensor w + 2)%nat ]} /\
  ((next_tensor w + 2)%nat ∉ live_tensors w) /\
  size (live_tensors (handle rid file o w).1) = S (size (live_tensors w)).
Proof.
  intros Hfresh Hk.
  destruct (handle_tensors rid file o w) as (_ & _ & Hok).
  destruct (Hok Hfresh _ Hk) as [Hlive Hnext].
  assert (Hnew : (next_tensor w + 2)%nat ∉ live_tensors w).
  { intros Hin. apply Hfresh in Hin. lia. }
  split_and!; [ exact Hnext | exact Hlive | exact Hnew | ].
  rewrite Hlive, size_union, size_singleton; [ lia | ].
  intros t Ht Hc. apply elem_of_singleton in Hc. by subst t.
Qed.

Lemma size_collection_after rid file o w :
  (size (predictionsCollection (handle rid file o w).1)
   <= size (predictionsCollection w)
      + if is_success (handle rid file o w).2 then 1 else 0)%nat.
Proof.
  destruct (handle_answer_cases rid file o w) as [Hk | [Hk | [doc Hk]]].
  - rewrite (failure_keeps_collection _ _ _ _ _ Hk eq_refl), Hk.
    cbn [is_success status no_image Nat.eqb].
    generalize (size (predictionsCollection w)). lia.
  - rewrite (failure_keeps_collection _ _ _ _ _ Hk eq_refl), Hk.
    cbn [is_success status prediction_error Nat.eqb].
    generalize (size (predictionsCollection w)). lia.
  - destruct (handle_success_inv _ _ _ _ _ Hk)
      as (_ & _ & _ & _ & _ & _ & _ & _ & _ & _ & _ & _ & Hcol & _).
    rewrite Hcol, Hk, map_size_insert. cbn [is_success status predicted Nat.eqb].
    destruct (predictionsCollection w !! id doc); unfold Datatypes.id;
      generalize (size (predictionsCollection w)); lia.
Qed.

(** X17: serving requests one after the other adds no more documents
    to the collection than 200 answers are given. *)
Theorem stored_records_bounded_by_successes reqs : forall rid w,
  (size (predictionsCollection (serve rid reqs w).1)
   <= size (predictionsCollection w) + successes (serve rid reqs w).2)%nat.
Proof.
  induction reqs as [|r reqs IH]; intros rid w.
  - cbn. lia.
  - cbn [serve]. pose proof (size_collection_after rid r.1 r.2 w) as Hsize.
    destruct (handle rid r.1 r.2 w) as [w' k]. cbn [fst snd] in *.
    specialize (IH (S rid) w').
    destruct (serve (S rid) reqs w') as [w'' ks]. cbn [fst snd] in *.
    unfold successes in *. rewrite filter_cons.
    destruct (is_success k); cbn; case_decide; try done; cbn; lia.
Qed.

(** ** The hypotheses hold on the scenarios *)

Lemma cancer_request_succeeds :
  (handle 0 (Some []) cancer_stub fresh_process).2
  = Done (predicted (record_of "Cancer" "Segera periksa ke dokter!")).
Proof. lazy. reflexivity. Qed.

Lemma rgba_request_fails :
  (handle 0 (Some [])
     (stub (Resolved rgba_pixel) (Resolved (rgb_model f32_0_8)) (Resolved tt))
     fresh_process).2
  = Done prediction_error.
Proof. lazy. reflexivity. Qed.

Lemma fresh_process_tensors_fresh : tensors_fresh fresh_process.
Proof. intros t Ht. apply elem_of_empty in Ht. destruct Ht. Qed.

Lemma earlier_collection_keyed : keyed_by_id (predictionsCollection stocked_process).
Proof.
  intros k d Hl. cbn in Hl. apply lookup_singleton_Some in Hl as [<- <-]. reflexivity.
Qed.

(** Two requests with identifiers of their own, run to their end on a
    collection that holds a document already: three documents are
    listed, each under its own [id]. *)
Lemma history_ids_match_records_witness :
  size (predictionsCollection (run_schedule to_the_end (stocked_process, two_writers)).1)
  = 3%nat /\
  match history_json
          (histories 2 (Resolved tt)
             (run_schedule to_the_end (stocked_process, two_writers)).1).2 with
  | HistoriesSuccess data => Forall (fun e => entry_id e = id (entry_history e)) data
  | HistoriesFail _ => Resolved tt = Rejected
  end.
Proof.
  split; [ lazy; reflexivity | ].
  apply (history_ids_match_records stocked_process two_writers to_the_end
           2%nat (Resolved tt)).
  exact earlier_collection_keyed.
Defined.

Lemma success_record_is_the_interpreted_prediction_witness :
  exists buf image t m output,
    Some [] = Some buf /\
    tf_decodeImage cancer_stub buf = Resolved image /\
    prepare image = Some t /\
    predict m t = Resolved output /\
    (cancerModel fresh_process = Some m \/
     (cancerModel fresh_process = None /\
      tf_loadGraphModel cancer_stub = Resolved (predict m))) /\
    cancerModel (handle 0 (Some []) cancer_stub fresh_process).1 = Some m /\
    record_of "Cancer" "Segera periksa ke dokter!"
    = {| id := uuidv4 cancer_stub;
         result := (interpret (score_of output)).1;
         suggestion := (interpret (score_of output)).2;
         createdAt := date_toISOString cancer_stub |}.
Proof.
  apply (success_record_is_the_interpreted_prediction
           0%nat (Some []) cancer_stub fresh_process).
  exact cancer_request_succeeds.
Defined.

Lemma success_inserts_or_overwrites_witness :
  let doc := record_of "Cancer" "Segera periksa ke dokter!" in
  let docs := predictionsCollection fresh_process in
  let docs' := predictionsCollection (handle 0 (Some []) cancer_stub fresh_process).1 in
  docs' !! id doc = Some doc /\
  (forall k, k <> id doc -> docs' !! k = docs !! k) /\
  (docs !! id doc = None -> size docs' = S (size docs)) /\
  (is_Some (docs !! id doc) -> size docs' = size docs).
Proof.
  apply (success_inserts_or_overwrites 0%nat (Some []) cancer_stub fresh_process).
  exact cancer_request_succeeds.
Defined.

Lemma cached_model_is_reused_witness :
  exists evs,
    trace (handle 1 (Some []) cancer_stub warm_process).1 = trace warm_process ++ evs /\
    Forall (fun e => is_storage_call e = false) evs /\
    cancerModel (handle 1 (Some []) cancer_stub warm_process).1
    = Some {| model_ref := 0; predict := rgb_model f32_0_8 |} /\
    next_model (handle 1 (Some []) cancer_stub warm_process).1 = next_model warm_process /\
    Forall (fun e => forall r, e.2 = CallPredict r -> r = 0%nat) evs.
Proof.
  apply (cached_model_is_reused 1%nat (Some []) cancer_stub warm_process
           {| model_ref := 0; predict := rgb_model f32_0_8 |}).
  lazy. reflexivity.
Defined.

Lemma answer_depends_on_slot_only_witness :
  (handle 0 (Some []) cancer_stub fresh_process).2
  = (handle 1 (Some []) cancer_stub (histories 0 Rejected fresh_process).1).2.
Proof.
  apply (answer_depends_on_slot_only 0%nat 1%nat (Some []) cancer_stub
           fresh_process (histories 0 Rejected fresh_process).1).
  reflexivity.
Defined.

Lemma failure_disposes_nothing_witness :
  let o := stub (Resolved rgba_pixel) (Resolved (rgb_model f32_0_8)) (Resolved tt) in
  live_tensors (handle 0 (Some []) o fresh_process).1
  = live_tensors fresh_process ∪ created_between fresh_process (handle 0 (Some []) o fresh_process).1 /\
  (exists evs, trace (handle 0 (Some []) o fresh_process).1 = trace fresh_process ++ evs /\
               Forall (fun e => is_dispose e = false) evs) /\
  (tensors_fresh fresh_process ->
     size (live_tensors (handle 0 (Some []) o fresh_process).1)
     = (size (live_tensors fresh_process)
        + (next_tensor (handle 0 (Some []) o fresh_process).1 - next_tensor fresh_process))%nat).
Proof.
  apply (failure_disposes_nothing 0%nat (Some [])
           (stub (Resolved rgba_pixel) (Resolved (rgb_model f32_0_8)) (Resolved tt))
           fresh_process prediction_error).
  - exact rgba_request_fails.
  - reflexivity.
Defined.

Lemma success_leaves_the_div_tensor_witness :
  next_tensor (handle 0 (Some []) cancer_stub fresh_process).1
  = (next_tensor fresh_process + 5)%nat /\
  live_tensors (handle 0 (Some []) cancer_stub fresh_process).1
  = live_tensors fresh_process ∪ {[ (next_tensor fresh_process + 2)%nat ]} /\
  ((next_tensor fresh_process + 2)%nat ∉ live_tensors fresh_process) /\
  size (live_tensors (handle 0 (Some []) cancer_stub fresh_process).1)
  = S (size (live_tensors fresh_process)).
Proof.
  apply (success_leaves_the_div_tensor 0%nat (Some []) cancer_stub fresh_process
           (record_of "Cancer" "Segera periksa ke dokter!")).
  - exact fresh_process_tensors_fresh.
  - exact cancer_request_succeeds.
Defined.

(** A model output just above one half: printed as 50.00, and reported
    as Non-cancer. *)
Example output_just_above_half :
  let x := JS.of_dyadic 16385 (-15) in
  JS.gt x (JS.of_dyadic 1 (-1)) = true /\
  JS.render (predictionValue_of [x]) = Some "50.00"%string /\
  (interpret (score_of [x])).1 = "Non-cancer"%string.
Proof. vm_compute. split_and!; reflexivity. Qed.
